(** * surface_morphometrics: intradistance_verticality.py

    A shallow embedding of the intra-surface distance and verticality
    measurements of [intradistance_verticality.py], and the properties of
    its specification that the code decides.

    Numbers.  numpy's float64 values are IEEE 754 binary64 numbers; they are
    modelled by the Standard Library's [spec_float] at precision 53 and
    maximal exponent 1024, whose operations round to nearest even and have
    one NaN.  Python's [int] is [Z].  [np.arccos] is numpy's and is not
    modelled: the verticality of line 111 is computed in float64 from
    whatever [np.arccos] answers, and its range is proved from the
    contract of [np.arccos] ([arccos_spec]).  Real numbers appear in the
    proofs only, as the values of float64 numbers ([B2R]). *)

From Stdlib Require Import ZArith Bool List String Ascii Lia.
From Stdlib Require Import Floats.SpecFloat.
From Stdlib Require Import Reals Lra.
From stdpp Require Import base option list strings gmap.

Local Open Scope Z_scope.

(** ** float64 *)

Module F64.

Definition float := spec_float.

Definition prec : Z := 53.
Definition emax : Z := 1024.

Definition nan : float := S754_nan.

(** [np.isnan] *)
Definition isnan (x : float) : bool :=
  match x with S754_nan => true | _ => false end.

Definition isfinite (x : float) : bool :=
  match x with S754_zero _ | S754_finite _ _ _ => true | _ => false end.

Definition add : float -> float -> float := SFadd prec emax.
Definition sub : float -> float -> float := SFsub prec emax.
Definition mul : float -> float -> float := SFmul prec emax.
Definition div : float -> float -> float := SFdiv prec emax.
Definition sqrt : float -> float := SFsqrt prec emax.
Definition neg : float -> float := SFopp.

(** A float64 of sign [s] that is not NaN. *)
Definition has_sign (s : bool) (x : float) : Prop :=
  match x with
  | S754_nan => False
  | S754_zero s' | S754_infinity s' | S754_finite s' _ _ => s' = s
  end.

(** [a < b], [a <= b] and [a > b] of two float64: false as soon as one
    side is NaN. *)
Definition ltb (a b : float) : bool := SFltb a b.
Definition leb (a b : float) : bool := SFleb a b.
Definition gtb (a b : float) : bool := SFltb b a.

(** The float64 nearest to [m * 2^e]; used for literals. *)
Definition of_scaled (m e : Z) : float := binary_normalize prec emax m e false.

(** Conversion of a Python [int] to float64, as numpy does when an [int]
    meets a float64 in arithmetic or in a comparison. *)
Definition of_int (z : Z) : float := of_scaled z 0.

End F64.

Import F64.

(** ** Vectors of three float64 (numpy arrays of shape (3,)) *)

Record vec3 := V3 { vx : float; vy : float; vz : float }.

Definition vmap (f : float -> float) (v : vec3) : vec3 :=
  V3 (f (vx v)) (f (vy v)) (f (vz v)).

Definition vmap2 (f : float -> float -> float) (u v : vec3) : vec3 :=
  V3 (f (vx u) (vx v)) (f (vy u) (vy v)) (f (vz u) (vz v)).

(** [-v], [u + v], [u - v] and [v * k] for a Python number [k]. *)
Definition vneg : vec3 -> vec3 := vmap neg.
Definition vadd : vec3 -> vec3 -> vec3 := vmap2 add.
Definition vsub : vec3 -> vec3 -> vec3 := vmap2 sub.
Definition vscale (v : vec3) (k : float) : vec3 := vmap (fun c => mul c k) v.

(** [np.linalg.norm] of a vector of three: the square root of the dot
    product of the vector with itself, the products summed from left to
    right, every operation rounded.  numpy leaves the dot product to its
    BLAS, which may sum in another order or fuse a product with a sum: its
    norm can differ from this one in the last bit. *)
Definition dot (u v : vec3) : float :=
  add (add (mul (vx u) (vx v)) (mul (vy u) (vy v))) (mul (vz u) (vz v)).

Definition norm (v : vec3) : float := sqrt (dot v v).

Definition vfinite (v : vec3) : bool :=
  isfinite (vx v) && isfinite (vy v) && isfinite (vz v).

(** ** Exceptions *)

Inductive exn :=
| AssertionError
| AttributeError (name : string)
| IndexError
| ValueError.

Inductive result (A : Type) :=
| Ok (a : A)
| Raise (e : exn).
Arguments Ok {A} a.
Arguments Raise {A} e.

Definition bind {A B} (r : result A) (k : A -> result B) : result B :=
  match r with
  | Ok a => k a
  | Raise e => Raise e
  end.

Notation "'let*' x ':=' r 'in' k" := (bind r (fun x => k))
  (at level 10, x pattern, r at level 100, k at level 200).

(** [l[i]] for [0 <= i]: [IndexError] outside the list. *)
Definition index {A} (l : list A) (i : nat) : result A :=
  match l !! i with
  | Some a => Ok a
  | None => Raise IndexError
  end.

(** ** The cell locator

    [locator.IntersectWithLine(p0, pmax, tolerance, t, p1, pcoords, sub_id,
    cell1_id)] is VTK's: it receives the two ends of the segment and the
    tolerance, and writes its answer into the objects it is passed.  The
    code reads two of them afterwards, the point [p1] and the cell id
    [cell1_id]; a locator is the function that gives these two from what it
    receives.  A locator that finds nothing leaves [cell1_id] at -1. *)

Record Locator := {
  IntersectWithLine : vec3 -> vec3 -> float -> vec3 * Z
}.

(** ** get_dist_two_directions *)

Section GetDist.

Variables (point normal : vec3) (locator : Locator).
Variables (dist_min dist_max : Z) (tolerance : float).

(** Lines 64-82, the body of [for direction in [-normal, normal]]: the
    segment, the locator's answer, and the distance and cell id that the
    branch taken appends. *)
Definition probe_direction (direction : vec3) : float * Z :=
  let p0 := vadd point (vscale direction (of_int dist_min)) in
  let pmax := vadd point (vscale direction (of_int dist_max)) in
  let '(p1, cell1_id) := IntersectWithLine locator p0 pmax tolerance in
  let distance := norm (vsub p1 point) in
  if cell1_id =? -1 then (nan, -1)
  else if gtb distance (of_int (dist_max + 1))
          || ltb distance (of_int (dist_min - 1)) then (nan, -1)
  else (norm (vsub p1 point), cell1_id).

(** The point that the locator answers on the segment of [direction] has
    three finite coordinates, unless the locator found nothing. *)
Definition finite_answer (direction : vec3) : bool :=
  let p0 := vadd point (vscale direction (of_int dist_min)) in
  let pmax := vadd point (vscale direction (of_int dist_max)) in
  let '(p1, cell1_id) := IntersectWithLine locator p0 pmax tolerance in
  (cell1_id =? -1) || vfinite p1.

(** One turn of the loop: [distances.append] and [cell_ids.append]. *)
Definition probe (acc : list float * list Z) (direction : vec3)
  : list float * list Z :=
  let '(distances, cell_ids) := acc in
  let '(distance, cell_id) := probe_direction direction in
  (distances ++ [distance], cell_ids ++ [cell_id]).

(** Lines 84-93: the two lists are reversed together or left as they are. *)
Definition reorder (distances : list float) (cell_ids : list Z)
  : result (list float * list Z) :=
  let* d0 := index distances 0 in
  if isnan d0 then Ok (rev distances, rev cell_ids)
  else
    let* d1 := index distances 1 in
    if isnan d1 then Ok (distances, cell_ids)
    else if gtb d0 d1 then Ok (rev distances, rev cell_ids)
    else Ok (distances, cell_ids).

(** Line 96: [np.isnan(distances[1]) or distances[0] <= distances[1]]. *)
Definition ordered (distances : list float) : result bool :=
  let* far := index distances 1 in
  if isnan far then Ok true
  else
    let* close := index distances 0 in
    let* far := index distances 1 in
    Ok (leb close far).

(** The two probes, the reordering, the assertion of line 96 and the
    [return] of line 98. *)
Definition get_dist_two_directions : result (float * Z * float * Z) :=
  let '(distances, cell_ids) :=
    fold_left probe [vneg normal; normal] ([], []) in
  let* (distances, cell_ids) := reorder distances cell_ids in
  let* holds := ordered distances in
  if holds : bool then
    let* close_distance := index distances 0 in
    let* close_id := index cell_ids 0 in
    let* far_distance := index distances 1 in
    let* far_id := index cell_ids 1 in
    Ok (close_distance, close_id, far_distance, far_id)
  else Raise AssertionError.

End GetDist.

(** The reordering rule in the words of the specification (4.3, step 2),
    to compare with [reorder]: swap if the first distance is NaN; else do
    not swap if the second is NaN; else swap if the first is greater than
    the second; else do not swap. *)
Definition swap_rule (d0 d1 : float) : bool :=
  if isnan d0 then true
  else if isnan d1 then false
  else if gtb d0 d1 then true
  else false.

(** The quadruple (close distance, close id, far distance, far id) that the
    rule gives from the result of the first probe and that of the second. *)
Definition canonical_pair (r0 r1 : float * Z) : float * Z * float * Z :=
  if swap_rule (fst r0) (fst r1)
  then (fst r1, snd r1, fst r0, snd r0)
  else (fst r0, snd r0, fst r1, snd r1).

(** ** The triangle graph

    [tg.graph] is a graph-tool graph: a number of vertices and a table of
    named vertex properties, each an array with one entry per vertex.  The
    property types the code touches are "float" (float64), "long" (int64)
    and "vector<double>", read three components at a time by
    [get_2d_array([0,1,2])].  Cell ids come from VTK as 64-bit integers, so
    storing them in a "long" array keeps them as they are. *)

Inductive property_map :=
| PFloat (a : list float)
| PLong (a : list Z)
| PVector (a : list vec3).

Record Graph := {
  num_vertices : nat;
  vertex_properties : gmap string property_map
}.

(** [tg.graph.vp.<name>.get_2d_array([0,1,2]).transpose()] *)
Definition get_vectors (g : Graph) (name : string) : result (list vec3) :=
  match vertex_properties g !! name with
  | Some (PVector a) => Ok a
  | Some _ => Raise ValueError
  | None => Raise (AttributeError name)
  end.

(** [tg.graph.vp.<name> = prop] *)
Definition set_property (name : string) (p : property_map) (g : Graph) : Graph :=
  {| num_vertices := num_vertices g;
     vertex_properties := <[name := p]> (vertex_properties g) |}.

(** The arrays of [new_vertex_property("float")] and
    [new_vertex_property("long")]: zeros, one per vertex. *)
Definition new_float_array (g : Graph) : list float :=
  replicate (num_vertices g) (S754_zero false).
Definition new_long_array (g : Graph) : list Z :=
  replicate (num_vertices g) 0.

(** ** surface_self_distances *)

(** The literal [0.001] of line 149 and the default [0.1] of the
    [--tolerance] option: the float64 nearest to 1/1000 and to 1/10. *)
Definition tol_0_001 : float := Eval cbv in div (of_int 1) (of_int 1000).
Definition tol_0_1 : float := Eval cbv in div (of_int 1) (of_int 10).

Definition arrays : Type := list float * list Z * list float * list Z.

(** [for i in items: s = body(s, i)], stopped by the first exception. *)
Fixpoint for_each {S I} (body : S -> I -> result S) (items : list I) (s : S)
  : result S :=
  match items with
  | [] => Ok s
  | i :: items' => let* s' := body s i in for_each body items' s'
  end.

Section SelfDistances.

Variables (xyz normal : list vec3) (locator : Locator).
Variables (dist_min dist_max : Z).

(** Line 149: the query of point [i], then the four stores at index [i]. *)
Definition distances_at (s : arrays) (i : nat) : result arrays :=
  let '(close_distances, close_id, far_distances, far_id) := s in
  let* p := index xyz i in
  let* n := index normal i in
  let* (cd, ci, fd, fi) :=
    get_dist_two_directions p n locator dist_min dist_max tol_0_001 in
  Ok (<[i := cd]> close_distances, <[i := ci]> close_id,
      <[i := fd]> far_distances, <[i := fi]> far_id).

(** [r] is the answer of the query of the point of index [i], on its
    position and its normal. *)
Definition answered (i : nat) (r : float * Z * float * Z) : Prop :=
  exists p n,
    xyz !! i = Some p /\ normal !! i = Some n
    /\ get_dist_two_directions p n locator dist_min dist_max tol_0_001 = Ok r.

End SelfDistances.

(** Entry [i] of the four arrays. *)
Definition row (s : arrays) (i : nat) : option (float * Z * float * Z) :=
  let '(close_distances, close_id, far_distances, far_id) := s in
  match close_distances !! i, close_id !! i, far_distances !! i, far_id !! i with
  | Some cd, Some ci, Some fd, Some fi => Some (cd, ci, fd, fi)
  | _, _, _, _ => None
  end.

(** The four arrays have [n] entries each. *)
Definition has_length (n : nat) (s : arrays) : Prop :=
  let '(close_distances, close_id, far_distances, far_id) := s in
  length close_distances = n /\ length close_id = n
  /\ length far_distances = n /\ length far_id = n.

(** The four arrays that [surface_self_distances] wrote to a graph. *)
Definition self_distances (g : Graph) : option arrays :=
  match vertex_properties g !! "self_dist_min",
        vertex_properties g !! "self_id_min",
        vertex_properties g !! "self_dist_far",
        vertex_properties g !! "self_id_far" with
  | Some (PFloat cd), Some (PLong ci), Some (PFloat fd), Some (PLong fi) =>
      Some (cd, ci, fd, fi)
  | _, _, _, _ => None
  end.

(** [np.nanmin] and [np.nanmax] of lines 151-152 are printed only; they
    raise [ValueError] on an array of length zero. *)
Definition print_nanmin_nanmax (a : list float) : result unit :=
  match a with
  | [] => Raise ValueError
  | _ :: _ => Ok tt
  end.

(** Lines 154-157: the four arrays become vertex properties. *)
Definition write_distances (s : arrays) (graph : Graph) : Graph :=
  let '(close_distances, close_id, far_distances, far_id) := s in
  set_property "self_id_far" (PLong far_id)
    (set_property "self_dist_far" (PFloat far_distances)
      (set_property "self_id_min" (PLong close_id)
        (set_property "self_dist_min" (PFloat close_distances) graph))).

(** [surface_self_distances], from the loaded graph and the locator built
    on the loaded surface to the graph that is saved and returned.  The
    [tolerance] argument is received and never read. *)
Definition surface_self_distances (graph : Graph) (locator : Locator)
    (dist_min dist_max : Z) (tolerance : float) : result Graph :=
  let* xyz := get_vectors graph "xyz" in
  let* normal := get_vectors graph "n_v" in
  let close_distances := new_float_array graph in
  let close_id := new_long_array graph in
  let far_distances := new_float_array graph in
  let far_id := new_long_array graph in
  let* (close_distances, close_id, far_distances, far_id) :=
    for_each (distances_at xyz normal locator dist_min dist_max)
             (seq 0 (length close_distances))
             (close_distances, close_id, far_distances, far_id) in
  let* _ := print_nanmin_nanmax close_distances in
  let* _ := print_nanmin_nanmax far_distances in
  Ok (write_distances (close_distances, close_id, far_distances, far_id) graph).

(** ** File names

    Python's [s[:-n]] for [n > 0]: all of [s] but its last [n] characters,
    the empty string when [s] has fewer. *)
Definition drop_last (n : nat) (s : string) : string :=
  substring 0 (String.length s - n) s.

(** Line 180, [intra_cli]: [graph_file[:-3]+".vtp"]. *)
Definition surface_file (graph_file : string) : string :=
  drop_last 3 graph_file +:+ ".vtp".

(** Line 164, [surface_self_distances]: [graph_file[:-3]+".csv"]. *)
Definition csvname (graph_file : string) : string :=
  drop_last 3 graph_file +:+ ".csv".

(** Line 117, [surface_verticality]: [graph_file[:-4]+".csv"]. *)
Definition verticality_csvname (graph_file : string) : string :=
  drop_last 4 graph_file +:+ ".csv".

(** ** Test surfaces

    Locators and graphs for the scenarios of the specification. *)

Definition f0 : float := of_int 0.
Definition f1 : float := of_int 1.
Definition f10 : float := of_int 10.
(** 400.5 *)
Definition f400_5 : float := of_scaled 801 (-1).

Definition origin : vec3 := V3 f0 f0 f0.
Definition up : vec3 := V3 f0 f0 f1.

(** [c] lies between [a] and [b], whichever is the larger. *)
Definition between (a c b : float) : bool :=
  (leb a c && leb c b) || (leb b c && leb c a).

Definition nearer (z0 : float) (best : option (float * Z)) (s : float * Z)
  : option (float * Z) :=
  match best with
  | None => Some s
  | Some b =>
      if ltb (SFabs (sub (fst s) z0)) (SFabs (sub (fst b) z0))
      then Some s else best
  end.

(** A surface of horizontal sheets, each a plane [z = c] with one cell id,
    probed by a segment parallel to the z axis: the sheet crossed first
    from [p0], or nothing, in which case [p1] stays [[0,0,0]] and the cell
    id stays -1. *)
Definition sheets_locator (sheets : list (float * Z)) : Locator :=
  {| IntersectWithLine p0 pmax _ :=
       let crossed :=
         List.filter (fun s => between (vz p0) (fst s) (vz pmax)) sheets in
       match fold_left (nearer (vz p0)) crossed None with
       | Some (c, id) => (V3 (vx p0) (vy p0) c, id)
       | None => (origin, -1)
       end |}.

(** Two sheets ten apart (Scenarios C and E): the point's own sheet is cell
    0 at z = 0, the other is cell 1 at z = 10. *)
Definition two_sheets : Locator := sheets_locator [(f0, 0); (f10, 1)].

(** A sheet on either side of the point's own, both ten away. *)
Definition three_sheets : Locator :=
  sheets_locator [(neg f10, 2); (f0, 0); (f10, 1)].

(** The point's own sheet and one 400.5 above it. *)
Definition far_sheet : Locator := sheets_locator [(f0, 0); (f400_5, 1)].

(** A normal along z of length 1 + 2^-9. *)
Definition long_up : vec3 := V3 f0 f0 (of_scaled 513 (-9)).

(** A locator with slop: a segment that goes up is answered with cell 7 at
    [p], wherever the segment ends. *)
Definition overshoot_locator (p : vec3) : Locator :=
  {| IntersectWithLine p0 pmax _ :=
       if ltb (vz p0) (vz pmax) then (p, 7) else (origin, -1) |}.

(** A locator that tells which tolerance it was given: a segment that goes
    up meets (0,0,10), in cell 1 when the tolerance is 0.1, in cell 2 when
    it is 0.001, and nothing otherwise. *)
Definition tolerance_reader : Locator :=
  {| IntersectWithLine p0 pmax tol :=
       if ltb (vz p0) (vz pmax) then
         if SFeqb tol tol_0_1 then (V3 f0 f0 f10, 1)
         else if SFeqb tol tol_0_001 then (V3 f0 f0 f10, 2)
         else (origin, -1)
       else (origin, -1) |}.

(** A graph of one vertex at the origin, its normal along z, and the graph
    saved after its self distances were measured between two sheets. *)
Definition one_vertex : Graph :=
  {| num_vertices := 1;
     vertex_properties :=
       <["xyz" := PVector [origin]]> (<["n_v" := PVector [up]]> ∅) |}.

Definition one_vertex_measured : Graph :=
  write_distances ([f10], [1], [nan], [-1]) one_vertex.


(** A graph without vertices, with both properties the run reads. *)
Definition no_vertex : Graph :=
  {| num_vertices := 0;
     vertex_properties :=
       <["xyz" := PVector []]> (<["n_v" := PVector []]> ∅) |}.

(** ** export_csv

    The table that [export_csv] builds before [df.to_csv] writes it.  A
    pandas DataFrame is taken as its columns by name: [df[name] = values]
    sets the column [name].  Every array of a graph has one entry per
    vertex, so the index of the frame is the vertices'; the order of the
    columns, which is that of the keys of the property table, is not
    kept. *)

Inductive column :=
| FloatColumn (a : list float)
| LongColumn (a : list Z).

Definition column_length (c : column) : nat :=
  match c with
  | FloatColumn a => length a
  | LongColumn a => length a
  end.

(** graph-tool's [value_type()] of the three kinds of property. *)
Definition value_type (p : property_map) : string :=
  match p with
  | PFloat _ => "double"
  | PLong _ => "int64_t"
  | PVector _ => "vector<double>"
  end.

Definition property_length (p : property_map) : nat :=
  match p with
  | PFloat a => length a
  | PLong a => length a
  | PVector a => length a
  end.

(** Every property array of the graph has one entry per vertex. *)
Definition well_formed (g : Graph) : Prop :=
  map_Forall (fun _ p => property_length p = num_vertices g)
             (vertex_properties g).

Definition is_vector (p : property_map) : bool :=
  match p with PVector _ => true | _ => false end.

(** Line 29. *)
Definition scalars : list string :=
  ["bool"; "int16_t"; "int32_t"; "int64_t"; "unsigned long"; "double";
   "long double"].

(** Lines 32-37, for one key of the table and the property under it. *)
Definition classify (acc : list string * list string)
    (item : string * property_map) : list string * list string :=
  let '(scalar_properties, vector_properties) := acc in
  let '(property, p) := item in
  let type := value_type p in
  if bool_decide (type ∈ scalars) then
    (scalar_properties ++ [property], vector_properties)
  else if String.eqb (substring 0 6 type) "vector" then
    (scalar_properties, vector_properties ++ [property])
  else (scalar_properties, vector_properties).

(** pycurv's [tg.get_vertex_property_array(property)]: the array of a
    scalar property; it prints the least and the greatest of the values,
    which raises [ValueError] when there is none. *)
Definition get_vertex_property_array (tg : Graph) (property : string)
  : result column :=
  match vertex_properties tg !! property with
  | Some (PFloat []) | Some (PLong []) => Raise ValueError
  | Some (PFloat a) => Ok (FloatColumn a)
  | Some (PLong a) => Ok (LongColumn a)
  | Some (PVector _) => Raise ValueError
  | None => Raise (AttributeError property)
  end.

(** [tg.graph.vp[vector_property].get_2d_array([0,1,2])] *)
Definition get_2d_array (tg : Graph) (vector_property : string)
  : result (list float * list float * list float) :=
  let* a := get_vectors tg vector_property in
  Ok (map vx a, map vy a, map vz a).

(** Lines 40-41, one turn. *)
Definition add_scalar (tg : Graph) (df : gmap string column) (property : string)
  : result (gmap string column) :=
  let* values := get_vertex_property_array tg property in
  Ok (<[property := values]> df).

(** Lines 42-46, one turn. *)
Definition add_vector (tg : Graph) (df : gmap string column)
    (vector_property : string) : result (gmap string column) :=
  let* (x, y, z) := get_2d_array tg vector_property in
  let df := <[vector_property +:+ "_x" := FloatColumn x]> df in
  let df := <[vector_property +:+ "_y" := FloatColumn y]> df in
  let df := <[vector_property +:+ "_z" := FloatColumn z]> df in
  Ok df.

(** Lines 23-46: the frame that line 47 writes to [csvname]. *)
Definition export_csv (tg : Graph) : result (gmap string column) :=
  let df : gmap string column := ∅ in
  let properties := map_to_list (vertex_properties tg) in
  let '(scalar_properties, vector_properties) :=
    fold_left classify properties ([], []) in
  let* df := for_each (add_scalar tg) scalar_properties df in
  for_each (add_vector tg) vector_properties df.

(** The column of name [name] that a vector property gives: component x,
    y or z of the property whose name is [name] without its last two
    characters. *)
Definition component_column (tg : Graph) (name : string) : option column :=
  match vertex_properties tg !! drop_last 2 name with
  | Some (PVector a) =>
      if decide (name = drop_last 2 name +:+ "_x")
      then Some (FloatColumn (map vx a))
      else if decide (name = drop_last 2 name +:+ "_y")
      then Some (FloatColumn (map vy a))
      else if decide (name = drop_last 2 name +:+ "_z")
      then Some (FloatColumn (map vz a))
      else None
  | _ => None
  end.

(** The column that a scalar property gives under its own name. *)
Definition scalar_column (tg : Graph) (name : string) : option column :=
  match vertex_properties tg !! name with
  | Some (PFloat a) => Some (FloatColumn a)
  | Some (PLong a) => Some (LongColumn a)
  | _ => None
  end.

(** A graph with a scalar property whose name is that of a component of a
    vector property. *)
Definition shadowed : Graph :=
  set_property "xyz_x" (PFloat [f10]) one_vertex.

(** The frame of the graph measured between two sheets. *)
Definition one_vertex_frame : gmap string column :=
  <["self_id_min" := LongColumn [1]]>
    (<["self_id_far" := LongColumn [-1]]>
      (<["self_dist_min" := FloatColumn [f10]]>
        (<["self_dist_far" := FloatColumn [nan]]>
          (<["n_v_x" := FloatColumn [f0]]>
            (<["n_v_y" := FloatColumn [f0]]>
              (<["n_v_z" := FloatColumn [f1]]>
                (<["xyz_x" := FloatColumn [f0]]>
                  (<["xyz_y" := FloatColumn [f0]]>
                    (<["xyz_z" := FloatColumn [f0]]> ∅))))))))).

(** ** surface_verticality, in float64

    [np.arccos] is numpy's and is taken as it comes; [np.pi] is the
    float64 nearest to pi. *)

Definition np_pi : float := S754_finite false 7074237752028440 (-51).

(** [prop.a = v] is numpy's [a[:] = v] on the array of [n] entries of the
    property: [v] as it is when it has [n] entries, one value for all
    when it has one, and [ValueError] otherwise. *)
Definition set_array (n : nat) (v : list float) : result (list float) :=
  if (length v =? n)%nat then Ok v
  else match v with
       | [x] => Ok (replicate n x)
       | _ => Raise ValueError
       end.

Section Verticality64.

Variable arccos : float -> float.

(** Line 111 for one entry of [z_values], every operation rounded. *)
Definition vert_float64 (z : float) : float :=
  sub (of_int 90)
      (SFabs (sub (div (mul (arccos z) (of_int 180)) np_pi) (of_int 90))).

(** Lines 108-114, from the loaded graph to the graph that is saved. *)
Definition surface_verticality (graph : Graph) : result Graph :=
  let* n_v := get_vectors graph "n_v" in
  let z_values := map vz n_v in
  let vert := map vert_float64 z_values in
  let* a := set_array (num_vertices graph) vert in
  Ok (set_property "verticality" (PFloat a) graph).

End Verticality64.

(** ** What np.arccos answers

    [np.arccos] is numpy's.  Line 111 takes from it what numpy documents:
    on [-1, 1] the answer is a float64 from 0 to [np.pi]; at 1, -1 and 0
    it is the float64 nearest to the angle, which is 0, [np.pi] and
    [np.pi/2]. *)

(** [np.pi/2] *)
Definition half_pi : float := S754_finite false 7074237752028440 (-52).

Record arccos_spec (arccos : float -> float) : Prop := {
  arccos_unit :
    forall z : float,
      leb (neg f1) z = true -> leb z f1 = true ->
      valid_binary prec emax (arccos z) = true
      /\ leb f0 (arccos z) = true /\ leb (arccos z) np_pi = true;
  arccos_one : arccos f1 = f0;
  arccos_minus_one : arccos (neg f1) = np_pi;
  arccos_zero : arccos f0 = half_pi
}.

(** A function that meets [arccos_spec]: the three angles above, a right
    angle everywhere else on [-1, 1], and NaN outside, as [np.arccos]
    answers there. *)
Definition arccos_steps (z : float) : float :=
  if SFeqb z f1 then f0
  else if SFeqb z (neg f1) then np_pi
  else if leb (neg f1) z && leb z f1 then half_pi
  else nan.

(** ** The value of a float64

    The real number that a float64 stands for, to follow the roundings of
    line 111: [m * 2^e] for the mantissa [m] and the exponent [e], and 0
    for the zeros (and for what has no value). *)

Definition bpow (e : Z) : R := powerRZ 2 e.

Definition F2R (m e : Z) : R := (IZR m * bpow e)%R.

Definition B2R (x : float) : R :=
  match x with
  | S754_finite s m e => F2R (cond_Zopp s (Zpos m)) e
  | _ => 0%R
  end.

(** [x] lies in the unit interval that starts at the mantissa of [mrs],
    and off its start when one of the two rounding bits is set. *)
Definition inbetween (x : R) (mrs : shr_record) : Prop :=
  0 <= shr_m mrs
  /\ (IZR (shr_m mrs) <= x < IZR (shr_m mrs) + 1)%R
  /\ (shr_r mrs || shr_s mrs = true -> (IZR (shr_m mrs) < x)%R).

(** A float64 in its one binary64 form that is +0 or above it: at most
    53 bits of mantissa, all 53 unless the exponent is the least one. *)
Definition canonical_pos (x : float) : Prop :=
  match x with
  | S754_zero false => True
  | S754_finite false m e =>
      -1074 <= e <= 971 /\ Zpos m < 9007199254740992
      /\ (e = -1074 \/ 4503599627370496 <= Zpos m)
  | _ => False
  end.

(** ** The files

    [load_graph] and [graph.save], pycurv's [io.load_poly] and
    [io.save_vtp], and [df.to_csv] read and write whole files: the disk is
    a table from paths to contents, and what is saved under a path is what
    is loaded from it.  What the loaders do with a path that holds no file
    of their kind is theirs: a run that gets there ends as [Unreadable]
    and says no more.  The surface is VTK's; the locator built on it
    ([locator_of]) and pycurv's [graph_to_triangle_poly] are taken as they
    come. *)

Module Files.

Section Files.

Variable Poly : Type.
Variable locator_of : Poly -> Locator.
Variable graph_to_triangle_poly : Graph -> Poly.
Variable arccos : float -> float.

Inductive file :=
| GraphFile (g : Graph)
| PolyFile (p : Poly)
| CsvFile (df : gmap string column).

Inductive outcome (A : Type) :=
| Returned (a : A)
| Raised (e : exn)
| Unreadable (path : string).
Arguments Returned {A} a.
Arguments Raised {A} e.
Arguments Unreadable {A} path.

(** A run from a disk to the disk it leaves and its outcome. *)
Definition io (A : Type) : Type :=
  gmap string file -> gmap string file * outcome A.

Definition ret {A} (a : A) : io A := fun d => (d, Returned a).

Definition io_bind {A B} (m : io A) (k : A -> io B) : io B :=
  fun d =>
    match m d with
    | (d', Returned a) => k a d'
    | (d', Raised e) => (d', Raised e)
    | (d', Unreadable path) => (d', Unreadable path)
    end.

Notation "'let+' x ':=' m 'in' k" := (io_bind m (fun x => k))
  (at level 10, x pattern, m at level 100, k at level 200).

Definition lift {A} (r : result A) : io A :=
  fun d => match r with
           | Ok a => (d, Returned a)
           | Raise e => (d, Raised e)
           end.

Definition load_graph (file_name : string) : io Graph :=
  fun d => match d !! file_name with
           | Some (GraphFile g) => (d, Returned g)
           | _ => (d, Unreadable file_name)
           end.

(** [graph.save(file_name)] *)
Definition save (graph : Graph) (file_name : string) : io unit :=
  fun d => (<[file_name := GraphFile graph]> d, Returned tt).

Definition load_poly (fname : string) : io Poly :=
  fun d => match d !! fname with
           | Some (PolyFile p) => (d, Returned p)
           | _ => (d, Unreadable fname)
           end.

Definition save_vtp (poly : Poly) (fname : string) : io unit :=
  fun d => (<[fname := PolyFile poly]> d, Returned tt).

(** [df.to_csv(csvname, index_label="index")] *)
Definition to_csv (df : gmap string column) (csvname : string) : io unit :=
  fun d => (<[csvname := CsvFile df]> d, Returned tt).

Local Abbreviation frame_of := export_csv (only parsing).
Local Abbreviation verticality_of := surface_verticality (only parsing).
Local Abbreviation self_distances_of := surface_self_distances (only parsing).

(** Lines 20-47. *)
Definition export_csv (tg : Graph) (csvname : string) : io unit :=
  let+ df := lift (frame_of tg) in
  to_csv df csvname.

(** Lines 101-117. *)
Definition surface_verticality (graph_file : string) (exportcsv : bool)
  : io unit :=
  let+ graph := load_graph graph_file in
  let+ graph := lift (verticality_of arccos graph) in
  let+ _ := save graph graph_file in
  if exportcsv then export_csv graph (verticality_csvname graph_file)
  else ret tt.

(** Lines 119-168. *)
Definition surface_self_distances (graph_file surface_file : string)
    (dist_min dist_max : Z) (tolerance : float) (exportcsv : bool)
  : io Graph :=
  let+ surface := load_poly surface_file in
  let locator := locator_of surface in
  let+ graph := load_graph graph_file in
  let+ graph := lift (self_distances_of graph locator dist_min dist_max
                                        tolerance) in
  let+ _ := save graph graph_file in
  let surf := graph_to_triangle_poly graph in
  let+ _ := save_vtp surf surface_file in
  let+ _ := (if exportcsv then export_csv graph (csvname graph_file)
             else ret tt) in
  ret graph.

(** Lines 178-183. *)
Definition intra_cli (graph_file : string) (verticality : bool)
    (dist_min dist_max : Z) (tolerance : float) (exportcsv : bool) : io unit :=
  let surface_file := surface_file graph_file in
  let+ _ := (if verticality then surface_verticality graph_file false
             else ret tt) in
  let+ _ := surface_self_distances graph_file surface_file dist_min dist_max
                                   tolerance exportcsv in
  ret tt.

End Files.

Arguments GraphFile {Poly} g.
Arguments PolyFile {Poly} p.
Arguments CsvFile {Poly} df.
Arguments Returned {A} a.
Arguments Raised {A} e.
Arguments Unreadable {A} path.
Arguments ret {Poly A} a _.
Arguments io_bind {Poly A B} m k _.
Arguments lift {Poly A} r _.

End Files.

(** A stand-in for [np.arccos] that is right where the test graph needs
    it: 0 at 1, and NaN elsewhere. *)
Definition arccos_at_one (z : float) : float :=
  if SFeqb z f1 then f0 else nan.


(** A graph of one vertex that has its normal and no position, and a disk
    that holds it. *)
Definition no_positions : Graph :=
  {| num_vertices := 1;
     vertex_properties := <["n_v" := PVector [up]]> ∅ |}.

Definition bad_disk : gmap string (Files.file Locator) :=
  <["mesh.gt" := Files.GraphFile no_positions]>
    (<["mesh.vtp" := Files.PolyFile two_sheets]> ∅).
(** * Properties *)

(** ** Comparisons of float64 *)

Section Comparisons.

Lemma SFcompare_antisym (x y : float) :
  SFcompare y x = option_map CompOpp (SFcompare x y).
Proof.
  destruct x as [sx|sx| |sx mx ex], y as [sy|sy| |sy my ey]; simpl;
    try reflexivity;
    try (destruct sx; reflexivity);
    try (destruct sy; reflexivity);
    try (destruct sx, sy; reflexivity).
  assert (Hm : Pos.compare_cont Eq my mx = CompOpp (Pos.compare_cont Eq mx my))
    by (symmetry; apply (Pos.compare_cont_antisym mx my Eq)).
  destruct sx, sy; simpl; try reflexivity;
    rewrite (Z.compare_antisym ex ey), Hm;
    destruct (ex ?= ey); simpl; try reflexivity;
    destruct (Pos.compare_cont Eq mx my); reflexivity.
Qed.

Lemma SFcompare_not_nan (x y : float) :
  isnan x = false -> isnan y = false -> exists c, SFcompare x y = Some c.
Proof.
  destruct x, y; simpl; intros Hx Hy; try discriminate; eauto.
Qed.

(** Between two numbers, [a > b] is the negation of [a <= b]. *)
Lemma gtb_negb_leb (a b : float) :
  isnan a = false -> isnan b = false -> gtb a b = negb (leb a b).
Proof.
  intros Ha Hb. unfold gtb, leb, SFltb, SFleb.
  rewrite (SFcompare_antisym a b).
  destruct (SFcompare_not_nan a b Ha Hb) as [c ->].
  destruct c; reflexivity.
Qed.

Lemma ltb_negb_leb (a b : float) :
  isnan a = false -> isnan b = false -> ltb a b = negb (leb b a).
Proof. intros Ha Hb. apply (gtb_negb_leb b a Hb Ha). Qed.

Lemma gtb_leb (a b : float) : gtb a b = true -> leb b a = true.
Proof.
  unfold gtb, leb, SFltb, SFleb.
  destruct (SFcompare b a) as [[| |]|]; congruence.
Qed.

Lemma gtb_nan_r (a : float) : gtb a nan = false.
Proof. destruct a; reflexivity. Qed.

End Comparisons.

(** ** Which operations can give NaN *)

Section NotNaN.

Lemma shr_1_nonneg (mrs : shr_record) :
  0 <= shr_m mrs -> 0 <= shr_m (shr_1 mrs).
Proof.
  destruct mrs as [m r s]; simpl.
  destruct m as [|[p|p|]|[p|p|]]; simpl; lia.
Qed.

Lemma iter_shr_1_nonneg (p : positive) :
  forall mrs, 0 <= shr_m mrs -> 0 <= shr_m (SpecFloat.iter_pos shr_1 p mrs).
Proof.
  induction p as [p IH|p IH|]; simpl; intros mrs H.
  - apply IH, IH, shr_1_nonneg, H.
  - apply IH, IH, H.
  - apply shr_1_nonneg, H.
Qed.

Lemma shr_fexp_nonneg (m e : Z) (l : location) :
  0 <= m -> 0 <= shr_m (fst (shr_fexp prec emax m e l)).
Proof.
  intros Hm. unfold shr_fexp, shr.
  assert (H0 : 0 <= shr_m (shr_record_of_loc m l))
    by (destruct l as [|[| |]]; exact Hm).
  destruct (fexp prec emax (Zdigits2 m + e) - e) as [|p|p]; simpl;
    try exact H0.
  apply iter_shr_1_nonneg, H0.
Qed.

Lemma round_nearest_even_nonneg (m : Z) (l : location) :
  0 <= m -> 0 <= round_nearest_even m l.
Proof.
  intros Hm. destruct l as [|[| |]]; simpl; try lia.
  destruct (Z.even m); lia.
Qed.

Lemma binary_round_aux_sign (s : bool) (m e : Z) (l : location) :
  0 <= m -> has_sign s (binary_round_aux prec emax s m e l).
Proof.
  intros Hm. unfold binary_round_aux.
  pose proof (shr_fexp_nonneg m e l Hm) as H1.
  destruct (shr_fexp prec emax m e l) as [mrs' e']. simpl in H1.
  pose proof (shr_fexp_nonneg
                (round_nearest_even (shr_m mrs') (loc_of_shr_record mrs'))
                e' loc_Exact
                (round_nearest_even_nonneg _ _ H1)) as H2.
  destruct (shr_fexp prec emax _ e' loc_Exact) as [mrs'' e'']. simpl in H2.
  destruct (shr_m mrs'') as [|q|q]; simpl; try reflexivity; try lia.
  destruct (e'' <=? emax - prec); reflexivity.
Qed.

Lemma binary_round_sign (s : bool) (m : positive) (e : Z) :
  has_sign s (binary_round prec emax s m e).
Proof.
  unfold binary_round.
  destruct (shl_align m e _) as [mz ez].
  apply binary_round_aux_sign. lia.
Qed.

Lemma has_sign_not_nan (s : bool) (x : float) : has_sign s x -> isnan x = false.
Proof. destruct x; simpl; intros H; [reflexivity..|destruct H|reflexivity]. Qed.

Lemma binary_normalize_not_nan (m e : Z) (s : bool) :
  isnan (binary_normalize prec emax m e s) = false.
Proof.
  destruct m as [|p|p]; simpl; try reflexivity.
  - apply (has_sign_not_nan false), binary_round_sign.
  - apply (has_sign_not_nan true), binary_round_sign.
Qed.

Lemma of_int_not_nan (z : Z) : isnan (of_int z) = false.
Proof. apply binary_normalize_not_nan. Qed.

(** The difference of two finite numbers is a number. *)
Lemma sub_not_nan (x y : float) :
  isfinite x = true -> isfinite y = true -> isnan (sub x y) = false.
Proof.
  destruct x as [sx|sx| |sx mx ex], y as [sy|sy| |sy my ey];
    simpl; intros Hx Hy; try discriminate; try reflexivity.
  - destruct sx, sy; reflexivity.
  - apply binary_normalize_not_nan.
Qed.

(** A square is a number of sign +, or a zero. *)
Lemma mul_self_sign (x : float) :
  isnan x = false -> has_sign false (mul x x).
Proof.
  destruct x as [sx|sx| |sx mx ex]; simpl; intros Hx; try discriminate.
  - apply xorb_nilpotent.
  - apply xorb_nilpotent.
  - unfold mul; simpl. rewrite xorb_nilpotent.
    apply binary_round_aux_sign. lia.
Qed.

Lemma add_sign (x y : float) :
  has_sign false x -> has_sign false y -> has_sign false (add x y).
Proof.
  destruct x as [sx|sx| |sx mx ex], y as [sy|sy| |sy my ey];
    simpl; intros Hx Hy; subst; try contradiction; try reflexivity.
  unfold add; simpl.
  destruct (shl_align mx ex _) as [mx' ex'], (shl_align my ey _) as [my' ey'].
  simpl. apply binary_round_sign.
Qed.

Lemma sqrt_sign (x : float) :
  has_sign false x -> has_sign false (sqrt x).
Proof.
  destruct x as [sx|sx| |sx mx ex]; simpl; intros Hx; subst;
    try contradiction; try reflexivity.
  unfold sqrt; simpl.
  destruct (SFsqrt_core_binary prec emax (Z.pos mx) ex) as [[mz ez] lz] eqn:E.
  apply binary_round_aux_sign.
  unfold SFsqrt_core_binary in E.
  destruct (Z.sqrtrem _) as [q r] eqn:Eq in E.
  injection E as <- _ _.
  pose proof (Z.sqrtrem_sqrt
    match ex - 2 * Z.min (fexp prec emax (Z.div2 (Zdigits2 (Z.pos mx) + ex + 1))) (Z.div2 ex) with
    | 0 => Z.pos mx
    | Z.pos _ => Z.shiftl (Z.pos mx) (ex - 2 * Z.min (fexp prec emax (Z.div2 (Zdigits2 (Z.pos mx) + ex + 1))) (Z.div2 ex))
    | Z.neg _ => 0
    end) as Hs.
  rewrite Eq in Hs. simpl in Hs. subst q. apply Z.sqrt_nonneg.
Qed.

(** [np.linalg.norm] of a vector without NaN is not NaN. *)
Lemma norm_sign (v : vec3) :
  isnan (vx v) = false -> isnan (vy v) = false -> isnan (vz v) = false ->
  has_sign false (norm v).
Proof.
  intros Hx Hy Hz. unfold norm, dot.
  apply sqrt_sign, add_sign; [apply add_sign|]; apply mul_self_sign; assumption.
Qed.

Lemma norm_vsub_not_nan (p q : vec3) :
  vfinite p = true -> vfinite q = true -> isnan (norm (vsub p q)) = false.
Proof.
  unfold vfinite. intros Hp Hq.
  apply andb_prop in Hp as [Hp Hpz]. apply andb_prop in Hp as [Hpx Hpy].
  apply andb_prop in Hq as [Hq Hqz]. apply andb_prop in Hq as [Hqx Hqy].
  apply (has_sign_not_nan false), norm_sign; simpl; apply sub_not_nan; assumption.
Qed.

End NotNaN.

(** ** get_dist_two_directions, probe by probe *)

Section GetDistFacts.

Variables (point normal : vec3) (locator : Locator).
Variables (dist_min dist_max : Z) (tolerance : float).

Let pd := probe_direction point locator dist_min dist_max tolerance.
Let query := get_dist_two_directions point normal locator dist_min dist_max tolerance.

(** The loop leaves the result of the [-normal] probe at index 0 and that
    of the [normal] probe at index 1. *)
Lemma fold_probe :
  fold_left (probe point locator dist_min dist_max tolerance)
            [vneg normal; normal] ([], [])
  = ([fst (pd (vneg normal)); fst (pd normal)],
     [snd (pd (vneg normal)); snd (pd normal)]).
Proof.
  unfold pd. simpl. unfold probe.
  destruct (probe_direction _ _ _ _ _ (vneg normal)) as [d0 i0].
  destruct (probe_direction _ _ _ _ _ normal) as [d1 i1].
  reflexivity.
Qed.

(** The code's reversal of the two lists is the rule of the
    specification, and the assertion that follows never fails. *)
Lemma get_dist_two_directions_canonical :
  query = Ok (canonical_pair (pd (vneg normal)) (pd normal)).
Proof.
  unfold query, get_dist_two_directions. rewrite fold_probe.
  destruct (pd (vneg normal)) as [d0 i0], (pd normal) as [d1 i1].
  unfold canonical_pair, swap_rule, reorder, ordered. simpl.
  destruct (isnan d0) eqn:N0; simpl.
  - rewrite N0. reflexivity.
  - destruct (isnan d1) eqn:N1; simpl.
    + rewrite N1. reflexivity.
    + destruct (gtb d0 d1) eqn:G; simpl.
      * rewrite N0. simpl. rewrite (gtb_leb _ _ G). reflexivity.
      * rewrite N1. simpl.
        rewrite (gtb_negb_leb _ _ N0 N1) in G.
        apply negb_false_iff in G. rewrite G. reflexivity.
Qed.

(** The query returns: no index is out of range and the assertion
    holds. *)
Lemma ordering_assertion_total : exists r, query = Ok r.
Proof. rewrite get_dist_two_directions_canonical. eauto. Qed.

(** A probe answers the sentinel pair or the distance to the point that
    the locator found, which then passed both tests of line 77. *)
Lemma probe_direction_cases (direction : vec3) :
  let p0 := vadd point (vscale direction (of_int dist_min)) in
  let pmax := vadd point (vscale direction (of_int dist_max)) in
  let p1 := fst (IntersectWithLine locator p0 pmax tolerance) in
  let id := snd (IntersectWithLine locator p0 pmax tolerance) in
  let d := norm (vsub p1 point) in
  (pd direction = (nan, -1)
   /\ (id = -1 \/ gtb d (of_int (dist_max + 1)) = true
               \/ ltb d (of_int (dist_min - 1)) = true))
  \/ (pd direction = (d, id) /\ id <> -1
      /\ gtb d (of_int (dist_max + 1)) = false
      /\ ltb d (of_int (dist_min - 1)) = false).
Proof.
  intros p0 pmax p1 id d. unfold pd, probe_direction.
  fold p0 pmax. subst p1 id d.
  destruct (IntersectWithLine locator p0 pmax tolerance) as [p1 id]. simpl.
  destruct (Z.eqb_spec id (-1)) as [E|E]; [left; auto|].
  destruct (gtb _ _) eqn:G; simpl; [left; auto|].
  destruct (ltb _ _) eqn:L; simpl; [left; auto|].
  right; auto.
Qed.

(** What the code's two tests say of a distance that is a number. *)
Lemma window_tests (d : float) :
  isnan d = false ->
  gtb d (of_int (dist_max + 1)) || ltb d (of_int (dist_min - 1))
  = negb (leb (of_int (dist_min - 1)) d && leb d (of_int (dist_max + 1))).
Proof.
  intros Hd.
  rewrite (gtb_negb_leb _ _ Hd (of_int_not_nan _)).
  rewrite (ltb_negb_leb _ _ Hd (of_int_not_nan _)).
  rewrite negb_andb. apply orb_comm.
Qed.

(** A distance that a probe answers, when it is a number, is within one
    of the window. *)
Lemma probe_direction_window (direction : vec3) :
  isnan (fst (pd direction)) = false ->
  leb (of_int (dist_min - 1)) (fst (pd direction)) = true
  /\ leb (fst (pd direction)) (of_int (dist_max + 1)) = true.
Proof.
  destruct (probe_direction_cases direction) as [[-> _]|(-> & _ & G & L)];
    simpl; intros Hd; [discriminate|].
  pose proof (window_tests _ Hd) as W. rewrite G, L in W. simpl in W.
  symmetry in W. apply negb_false_iff, andb_prop in W. exact W.
Qed.

(** With finite coordinates, a probe answers cell id -1 exactly when it
    answers NaN. *)
Lemma probe_direction_sentinel (direction : vec3) :
  vfinite point = true ->
  finite_answer point locator dist_min dist_max tolerance direction = true ->
  snd (pd direction) = -1 <-> isnan (fst (pd direction)) = true.
Proof.
  intros Hp Hf. unfold finite_answer in Hf.
  destruct (probe_direction_cases direction) as [[-> _]|(-> & Hid & _)];
    simpl; [tauto|].
  destruct (IntersectWithLine _ _ _ _) as [p1 id]; simpl in *.
  apply orb_prop in Hf as [Hf|Hf]; [apply Z.eqb_eq in Hf; contradiction|].
  rewrite (norm_vsub_not_nan _ _ Hf Hp). split; [contradiction|discriminate].
Qed.

End GetDistFacts.

(** ** The ordered pair of a point *)

(** C1. The two probe results are reordered by this priority: if the first
    distance (-normal) is NaN the slots are swapped, whatever the second;
    else if the second distance (+normal) is NaN they are not; else if the
    first distance is greater than the second they are swapped; else they
    are not.  So, when exactly one probe hits, its distance and cell id
    take the close slot and (NaN, -1) the far slot. *)
Theorem reorder_priority (point normal : vec3) (locator : Locator)
    (dist_min dist_max : Z) (tolerance : float) (d0 d1 : float) (id0 id1 : Z) :
  probe_direction point locator dist_min dist_max tolerance (vneg normal)
    = (d0, id0) ->
  probe_direction point locator dist_min dist_max tolerance normal
    = (d1, id1) ->
  let query :=
    get_dist_two_directions point normal locator dist_min dist_max tolerance in
  query = Ok (if isnan d0 then (d1, id1, d0, id0)
              else if isnan d1 then (d0, id0, d1, id1)
              else if gtb d0 d1 then (d1, id1, d0, id0)
              else (d0, id0, d1, id1))
  /\ (isnan d0 = false -> (d1, id1) = (nan, -1) ->
      query = Ok (d0, id0, nan, -1))
  /\ ((d0, id0) = (nan, -1) -> isnan d1 = false ->
      query = Ok (d1, id1, nan, -1)).
Proof.
  intros H0 H1 query.
  assert (Hq : query = Ok (if isnan d0 then (d1, id1, d0, id0)
                           else if isnan d1 then (d0, id0, d1, id1)
                           else if gtb d0 d1 then (d1, id1, d0, id0)
                           else (d0, id0, d1, id1))).
  { unfold query. rewrite get_dist_two_directions_canonical, H0, H1.
    unfold canonical_pair, swap_rule. simpl.
    destruct (isnan d0), (isnan d1), (gtb d0 d1); reflexivity. }
  split; [exact Hq|split].
  - intros N0 E. injection E as -> ->. rewrite Hq, N0. reflexivity.
  - intros E N1. injection E as -> ->. rewrite Hq. reflexivity.
Qed.

(** Scenario C: two sheets ten apart, [dist_min = 1], [dist_max = 50]. *)
Lemma reorder_priority_scenario_C :
  probe_direction origin two_sheets 1 50 tol_0_1 (vneg up) = (nan, -1)
  /\ probe_direction origin two_sheets 1 50 tol_0_1 up = (f10, 1)
  /\ get_dist_two_directions origin up two_sheets 1 50 tol_0_1
     = Ok (f10, 1, nan, -1).
Proof.
  split; [vm_compute; reflexivity|split; [vm_compute; reflexivity|]].
  apply (reorder_priority origin up two_sheets 1 50 tol_0_1 nan f10 (-1) 1);
    vm_compute; reflexivity.
Defined.

(** Scenario D: nothing but the point's own sheet. *)
Example scenario_D :
  get_dist_two_directions origin up (sheets_locator [(f0, 0)]) 1 50 tol_0_1
  = Ok (nan, -1, nan, -1).
Proof. vm_compute. reflexivity. Qed.

(** Scenario E: the two sheets of Scenario C, [dist_max = 5]. *)
Example scenario_E :
  get_dist_two_directions origin up two_sheets 1 5 tol_0_1
  = Ok (nan, -1, nan, -1).
Proof. vm_compute. reflexivity. Qed.

(** C2. Whatever the two probes answer, after the reordering the far
    distance is NaN or the close distance is at most the far distance: the
    assertion of line 96 holds, and the query returns its quadruple. *)
Theorem ordering_assertion_holds (point normal : vec3) (locator : Locator)
    (dist_min dist_max : Z) (tolerance : float) :
  (forall (d0 d1 : float) (id0 id1 : Z),
      exists distances cell_ids,
        reorder [d0; d1] [id0; id1] = Ok (distances, cell_ids)
        /\ ordered distances = Ok true)
  /\ exists close_distance close_id far_distance far_id,
      get_dist_two_directions point normal locator dist_min dist_max tolerance
      = Ok (close_distance, close_id, far_distance, far_id)
      /\ (isnan far_distance = true \/ leb close_distance far_distance = true).
Proof.
  split.
  - intros d0 d1 id0 id1. unfold reorder, ordered. simpl.
    destruct (isnan d0) eqn:N0; simpl.
    { eexists _, _. split; [reflexivity|]. simpl. rewrite N0. reflexivity. }
    destruct (isnan d1) eqn:N1; simpl.
    { eexists _, _. split; [reflexivity|]. simpl. rewrite N1. reflexivity. }
    destruct (gtb d0 d1) eqn:G; eexists _, _; (split; [reflexivity|]); simpl.
    + rewrite N0. simpl. rewrite (gtb_leb _ _ G). reflexivity.
    + rewrite N1. simpl. rewrite (gtb_negb_leb _ _ N0 N1) in G.
      apply negb_false_iff in G. rewrite G. reflexivity.
  - rewrite get_dist_two_directions_canonical.
    destruct (probe_direction _ _ _ _ _ (vneg normal)) as [d0 id0].
    destruct (probe_direction _ _ _ _ _ normal) as [d1 id1].
    unfold canonical_pair, swap_rule. simpl.
    destruct (isnan d0) eqn:N0; simpl.
    { eexists _, _, _, _. split; [reflexivity|]. left. exact N0. }
    destruct (isnan d1) eqn:N1; simpl.
    { eexists _, _, _, _. split; [reflexivity|]. left. exact N1. }
    destruct (gtb d0 d1) eqn:G; simpl;
      eexists _, _, _, _; (split; [reflexivity|]); right.
    + apply gtb_leb, G.
    + rewrite (gtb_negb_leb _ _ N0 N1) in G. apply negb_false_iff, G.
Qed.

(** C3. For a point of finite coordinates and a locator that answers
    points of finite coordinates, in the returned quadruple the close id is
    -1 exactly when the close distance is NaN, and the far id is -1 exactly
    when the far distance is NaN. *)
Theorem sentinel_consistency (point normal : vec3) (locator : Locator)
    (dist_min dist_max : Z) (tolerance : float)
    (close_distance far_distance : float) (close_id far_id : Z) :
  vfinite point = true ->
  finite_answer point locator dist_min dist_max tolerance (vneg normal) = true ->
  finite_answer point locator dist_min dist_max tolerance normal = true ->
  get_dist_two_directions point normal locator dist_min dist_max tolerance
    = Ok (close_distance, close_id, far_distance, far_id) ->
  (close_id = -1 <-> isnan close_distance = true)
  /\ (far_id = -1 <-> isnan far_distance = true).
Proof.
  intros Hp F0 F1. rewrite get_dist_two_directions_canonical.
  pose proof (probe_direction_sentinel point locator dist_min dist_max
                tolerance (vneg normal) Hp F0) as S0.
  pose proof (probe_direction_sentinel point locator dist_min dist_max
                tolerance normal Hp F1) as S1.
  unfold canonical_pair.
  destruct (swap_rule _ _); intros E; injection E as <- <- <- <-; split;
    assumption.
Qed.

Lemma sentinel_consistency_scenario_C :
  (1 = -1 <-> isnan f10 = true) /\ (-1 = -1 <-> isnan nan = true).
Proof.
  apply (sentinel_consistency origin up two_sheets 1 50 tol_0_1 f10 nan 1 (-1));
    vm_compute; reflexivity.
Defined.

(** C4. For a point and an answered point of finite coordinates, and a
    locator whose cell ids are -1 or more, one probe answers the sentinel
    (NaN, -1) exactly when the locator found nothing (cell id -1) or the
    distance from the point to the answered point is outside
    [dist_min - 1, dist_max + 1]; otherwise it answers that distance and
    the cell id, which is 0 or more. *)
Theorem probe_sentinel (point : vec3) (locator : Locator)
    (dist_min dist_max : Z) (tolerance : float) (direction p1 : vec3)
    (cell1_id : Z) :
  IntersectWithLine locator
    (vadd point (vscale direction (of_int dist_min)))
    (vadd point (vscale direction (of_int dist_max))) tolerance
    = (p1, cell1_id) ->
  vfinite point = true ->
  vfinite p1 = true ->
  -1 <= cell1_id ->
  let distance := norm (vsub p1 point) in
  let in_window :=
    leb (of_int (dist_min - 1)) distance && leb distance (of_int (dist_max + 1)) in
  let answer :=
    probe_direction point locator dist_min dist_max tolerance direction in
  (answer = (nan, -1) <-> cell1_id = -1 \/ in_window = false)
  /\ (answer <> (nan, -1) -> answer = (distance, cell1_id) /\ 0 <= cell1_id).
Proof.
  intros Hq Hp Hp1 Hid distance in_window answer.
  assert (Hd : isnan distance = false) by (apply norm_vsub_not_nan; assumption).
  assert (Ha : answer = if (cell1_id =? -1) || negb in_window
                        then (nan, -1) else (distance, cell1_id)).
  { unfold answer, probe_direction. rewrite Hq. fold distance.
    rewrite (window_tests dist_min dist_max distance Hd). fold in_window.
    destruct (cell1_id =? -1); reflexivity. }
  rewrite Ha.
  destruct (Z.eqb_spec cell1_id (-1)) as [E|E]; simpl.
  - split; [tauto|congruence].
  - destruct in_window; simpl.
    + split; [|intros _; split; [reflexivity|lia]].
      split; [intros H; injection H as _ H; contradiction|].
      intros [H|H]; [contradiction|discriminate].
    + split; [tauto|congruence].
Qed.

Lemma probe_sentinel_scenario_C :
  (probe_direction origin two_sheets 1 50 tol_0_1 up = (nan, -1)
   <-> 1 = -1 \/ leb (of_int (1 - 1)) (norm (vsub (V3 f0 f0 f10) origin))
                 && leb (norm (vsub (V3 f0 f0 f10) origin)) (of_int (50 + 1))
                 = false)
  /\ (probe_direction origin two_sheets 1 50 tol_0_1 up <> (nan, -1) ->
      probe_direction origin two_sheets 1 50 tol_0_1 up
      = (norm (vsub (V3 f0 f0 f10) origin), 1) /\ 0 <= 1).
Proof.
  apply (probe_sentinel origin two_sheets 1 50 tol_0_1 up (V3 f0 f0 f10) 1);
    try (vm_compute; reflexivity).
  vm_compute. discriminate.
Defined.

(** C6, amended.  Every distance of the returned quadruple that is not NaN
    lies between [dist_min - 1] and [dist_max + 1]: the slack is the 1 of
    line 77, whatever the tolerance. *)
Theorem window_bound (point normal : vec3) (locator : Locator)
    (dist_min dist_max : Z) (tolerance : float)
    (close_distance far_distance : float) (close_id far_id : Z) :
  get_dist_two_directions point normal locator dist_min dist_max tolerance
    = Ok (close_distance, close_id, far_distance, far_id) ->
  (isnan close_distance = false ->
   leb (of_int (dist_min - 1)) close_distance = true
   /\ leb close_distance (of_int (dist_max + 1)) = true)
  /\ (isnan far_distance = false ->
      leb (of_int (dist_min - 1)) far_distance = true
      /\ leb far_distance (of_int (dist_max + 1)) = true).
Proof.
  rewrite get_dist_two_directions_canonical.
  pose proof (probe_direction_window point locator dist_min dist_max
                tolerance (vneg normal)) as W0.
  pose proof (probe_direction_window point locator dist_min dist_max
                tolerance normal) as W1.
  unfold canonical_pair.
  destruct (swap_rule _ _); intros E; injection E as <- <- <- <-; split;
    assumption.
Qed.

Lemma window_bound_overshoot :
  (isnan f400_5 = false ->
   leb (of_int (3 - 1)) f400_5 = true /\ leb f400_5 (of_int (400 + 1)) = true)
  /\ (isnan nan = false ->
      leb (of_int (3 - 1)) nan = true /\ leb nan (of_int (400 + 1)) = true).
Proof.
  apply (window_bound origin up (overshoot_locator (V3 f0 f0 f400_5)) 3 400
           tol_0_1 f400_5 nan 7 (-1)).
  vm_compute; reflexivity.
Defined.

(** C6 as stated fails: with [dist_max = 400] and tolerance 0.1, a locator
    that answers a point 400.5 away gives the close distance 400.5, which
    is a number and is more than 400 + 0.1. *)
Lemma window_bound_tolerance_fails :
  get_dist_two_directions origin up (overshoot_locator (V3 f0 f0 f400_5))
                          3 400 tol_0_1
  = Ok (f400_5, 7, nan, -1)
  /\ isnan f400_5 = false
  /\ leb f400_5 (add (of_int 400) tol_0_1) = false.
Proof. vm_compute. repeat split. Qed.

(** The same distance comes from a sheet that the segment does cross, when
    the normal is longer than 1: the code does not normalise it. *)
Example window_bound_long_normal :
  get_dist_two_directions origin long_up far_sheet 3 400 tol_0_1
  = Ok (f400_5, 1, nan, -1).
Proof. vm_compute. reflexivity. Qed.

(** C10. When both probes answer numbers and the two are equal, nothing is
    swapped: the close slot holds the distance and cell id of the -normal
    probe, the far slot those of the +normal probe. *)
Theorem tie_keeps_probe_order (point normal : vec3) (locator : Locator)
    (dist_min dist_max : Z) (tolerance : float) (d0 d1 : float) (id0 id1 : Z) :
  probe_direction point locator dist_min dist_max tolerance (vneg normal)
    = (d0, id0) ->
  probe_direction point locator dist_min dist_max tolerance normal
    = (d1, id1) ->
  isnan d0 = false ->
  isnan d1 = false ->
  SFeqb d0 d1 = true ->
  get_dist_two_directions point normal locator dist_min dist_max tolerance
    = Ok (d0, id0, d1, id1).
Proof.
  intros H0 H1 N0 N1 E.
  rewrite get_dist_two_directions_canonical, H0, H1.
  unfold canonical_pair, swap_rule. simpl. rewrite N0, N1.
  assert (G : gtb d0 d1 = false).
  { unfold gtb, SFltb. rewrite (SFcompare_antisym d0 d1).
    unfold SFeqb in E. destruct (SFcompare d0 d1) as [[| |]|]; try discriminate.
    reflexivity. }
  rewrite G. reflexivity.
Qed.

Lemma tie_keeps_probe_order_three_sheets :
  get_dist_two_directions origin up three_sheets 1 50 tol_0_1
  = Ok (f10, 2, f10, 1).
Proof.
  apply (tie_keeps_probe_order origin up three_sheets 1 50 tol_0_1);
    vm_compute; reflexivity.
Defined.

(** ** The loop over the points *)

Section Loop.

Variables (xyz normal : list vec3) (locator : Locator).
Variables (dist_min dist_max : Z).

Local Open Scope nat_scope.

Let body := distances_at xyz normal locator dist_min dist_max.

Let answered := answered xyz normal locator dist_min dist_max.

Lemma distances_at_inv (n i : nat) (s s' : arrays) :
  has_length n s -> i < n -> body s i = Ok s' ->
  has_length n s'
  /\ (exists r, answered i r /\ row s' i = Some r)
  /\ (forall j, j <> i -> row s' j = row s j).
Proof.
  destruct s as [[[cd ci] fd] fi]. intros (L1 & L2 & L3 & L4) Hi.
  unfold body, distances_at, index.
  destruct (xyz !! i) as [p|] eqn:Ep; simpl; [|discriminate].
  destruct (normal !! i) as [nrm|] eqn:En; simpl; [|discriminate].
  destruct (get_dist_two_directions _ _ _ _ _ _) as [[[[a b] c] d]|e] eqn:Eq;
    simpl; [|discriminate].
  intros E. injection E as <-. repeat split.
  - rewrite length_insert; exact L1.
  - rewrite length_insert; exact L2.
  - rewrite length_insert; exact L3.
  - rewrite length_insert; exact L4.
  - exists (a, b, c, d). split; [exists p, nrm; auto|].
    simpl. rewrite !list_lookup_insert_eq by lia. reflexivity.
  - intros j Hj. simpl. rewrite !list_lookup_insert_ne by auto. reflexivity.
Qed.

(** After the turns of indices [a], ..., [a + len - 1], each of these
    entries holds the answer of its own point, and the entries before
    [a] are as they were. *)
Lemma for_each_distances_at (n len : nat) :
  forall (a : nat) (s s' : arrays),
    has_length n s -> a + len <= n ->
    for_each body (seq a len) s = Ok s' ->
    has_length n s'
    /\ (forall i, a <= i < a + len -> exists r, answered i r /\ row s' i = Some r)
    /\ (forall i, i < a -> row s' i = row s i).
Proof.
  induction len as [|len IH]; intros a s s' Hs Hle; simpl.
  - intros E. injection E as <-.
    split; [exact Hs|split; [lia|reflexivity]].
  - destruct (body s a) as [s1|e] eqn:Eb; simpl; [|discriminate].
    intros E.
    destruct (distances_at_inv n a s s1 Hs ltac:(lia) Eb) as (Hs1 & Hr & Hk).
    destruct (IH (S a) s1 s' Hs1 ltac:(lia) E) as (Hs' & Hin & Hbefore).
    split; [exact Hs'|split].
    + intros i Hi. destruct (decide (i = a)) as [->|Hne].
      * destruct Hr as (r & Hr & Hrow). exists r. split; [exact Hr|].
        rewrite Hbefore by lia. exact Hrow.
      * apply Hin. lia.
    + intros i Hi. rewrite Hbefore by lia. apply Hk. lia.
Qed.

End Loop.

(** ** surface_self_distances *)

Section Written.

Variables (s : arrays) (g : Graph).

Lemma num_vertices_write_distances :
  num_vertices (write_distances s g) = num_vertices g.
Proof. destruct s as [[[cd ci] fd] fi]. reflexivity. Qed.

(** The positions and the normals are not among the properties written. *)
Lemma get_vectors_write_distances (name : string) :
  name = "xyz" \/ name = "n_v" ->
  get_vectors (write_distances s g) name = get_vectors g name.
Proof.
  destruct s as [[[cd ci] fd] fi].
  intros [->| ->]; unfold get_vectors; simpl;
    rewrite !lookup_insert_ne by discriminate; reflexivity.
Qed.

Lemma self_distances_write_distances :
  self_distances (write_distances s g) = Some s.
Proof.
  destruct s as [[[cd ci] fd] fi]. unfold self_distances. simpl.
  rewrite !lookup_insert.
  repeat case_decide; first [reflexivity | discriminate | congruence].
Qed.

(** Writing the same four arrays a second time changes nothing. *)
Lemma write_distances_twice :
  write_distances s (write_distances s g) = write_distances s g.
Proof.
  destruct s as [[[cd ci] fd] fi]. unfold write_distances, set_property.
  simpl. f_equal. apply map_eq. intros k.
  rewrite !lookup_insert. repeat case_decide; reflexivity.
Qed.

End Written.

(** What a run that returns has done. *)
Lemma surface_self_distances_Ok (g g1 : Graph) (locator : Locator)
    (dist_min dist_max : Z) (tolerance : float) :
  surface_self_distances g locator dist_min dist_max tolerance = Ok g1 ->
  exists xyz normal s,
    get_vectors g "xyz" = Ok xyz /\ get_vectors g "n_v" = Ok normal
    /\ for_each (distances_at xyz normal locator dist_min dist_max)
                (seq 0 (num_vertices g))
                (new_float_array g, new_long_array g,
                 new_float_array g, new_long_array g) = Ok s
    /\ num_vertices g <> 0%nat
    /\ g1 = write_distances s g.
Proof.
  unfold surface_self_distances.
  destruct (get_vectors g "xyz") as [xyz|e]; simpl; [|discriminate].
  destruct (get_vectors g "n_v") as [normal|e]; simpl; [|discriminate].
  unfold new_float_array at 1. rewrite length_replicate.
  destruct (for_each _ _ _) as [[[[cd ci] fd] fi]|e] eqn:E; simpl; [|discriminate].
  intros H. exists xyz, normal, (cd, ci, fd, fi).
  assert (L : has_length (num_vertices g) (cd, ci, fd, fi)).
  { eapply (for_each_distances_at _ _ _ _ _ (num_vertices g) (num_vertices g) 0%nat);
      [|reflexivity|exact E].
    unfold new_float_array, new_long_array. simpl.
    rewrite !length_replicate. auto. }
  destruct L as (L1 & _ & L3 & _).
  destruct cd as [|c cd]; simpl in H; [discriminate|].
  destruct fd as [|f fd]; simpl in H; [discriminate|].
  injection H as <-. simpl in L1.
  split; [reflexivity|split; [reflexivity|split; [exact E|split; [lia|reflexivity]]]].
Qed.


(** The converse: what the run returns from the arrays of the loop. *)
Lemma surface_self_distances_eq (g : Graph) (locator : Locator)
    (dist_min dist_max : Z) (tolerance : float) (xyz normal : list vec3)
    (s : arrays) :
  get_vectors g "xyz" = Ok xyz -> get_vectors g "n_v" = Ok normal ->
  for_each (distances_at xyz normal locator dist_min dist_max)
           (seq 0 (num_vertices g))
           (new_float_array g, new_long_array g,
            new_float_array g, new_long_array g) = Ok s ->
  num_vertices g <> 0%nat ->
  surface_self_distances g locator dist_min dist_max tolerance
  = Ok (write_distances s g).
Proof.
  intros Hx Hn E Hv.
  assert (L : has_length (num_vertices g) s).
  { eapply (for_each_distances_at _ _ _ _ _ (num_vertices g) (num_vertices g) 0%nat);
      [|reflexivity|exact E].
    unfold new_float_array, new_long_array. simpl.
    rewrite !length_replicate. auto. }
  unfold surface_self_distances. rewrite Hx, Hn. simpl.
  unfold new_float_array at 1. rewrite length_replicate, E. simpl.
  destruct s as [[[cd ci] fd] fi]. destruct L as (L1 & _ & L3 & _).
  destruct cd as [|c cd]; [simpl in L1; congruence|].
  destruct fd as [|f fd]; [simpl in L3; congruence|].
  reflexivity.
Qed.

(** C8. A second run on the graph that a first run saved, with the same
    locator and window, returns that same graph, whatever the tolerance;
    the four sequences hold, at each index, the answer of the query on the
    position and normal of that index; and any graph with the same
    positions, normals and number of points gets the same four
    sequences. *)
Theorem self_distances_deterministic (g g1 : Graph) (locator : Locator)
    (dist_min dist_max : Z) (tolerance tolerance' : float) :
  surface_self_distances g locator dist_min dist_max tolerance = Ok g1 ->
  surface_self_distances g1 locator dist_min dist_max tolerance' = Ok g1
  /\ (exists xyz normal s,
         get_vectors g "xyz" = Ok xyz /\ get_vectors g "n_v" = Ok normal
         /\ self_distances g1 = Some s
         /\ has_length (num_vertices g) s
         /\ forall i, (i < num_vertices g)%nat ->
              exists r, answered xyz normal locator dist_min dist_max i r
                        /\ row s i = Some r)
  /\ (forall g',
         get_vectors g' "xyz" = get_vectors g "xyz" ->
         get_vectors g' "n_v" = get_vectors g "n_v" ->
         num_vertices g' = num_vertices g ->
         exists g1',
           surface_self_distances g' locator dist_min dist_max tolerance' = Ok g1'
           /\ self_distances g1' = self_distances g1).
Proof.
  intros H.
  destruct (surface_self_distances_Ok _ _ _ _ _ _ H)
    as (xyz & normal & s & Hx & Hn & E & Hv & ->).
  assert (Same : forall g', get_vectors g' "xyz" = Ok xyz ->
                   get_vectors g' "n_v" = Ok normal ->
                   num_vertices g' = num_vertices g ->
                   surface_self_distances g' locator dist_min dist_max tolerance'
                   = Ok (write_distances s g')).
  { intros g' Hx' Hn' Hv'. apply (surface_self_distances_eq _ _ _ _ _ xyz normal);
      [exact Hx'|exact Hn'| |congruence].
    unfold new_float_array, new_long_array. rewrite Hv'. exact E. }
  split; [|split].
  - rewrite Same.
    + rewrite write_distances_twice. reflexivity.
    + rewrite get_vectors_write_distances by auto. exact Hx.
    + rewrite get_vectors_write_distances by auto. exact Hn.
    + apply num_vertices_write_distances.
  - exists xyz, normal, s.
    destruct (for_each_distances_at xyz normal locator dist_min dist_max
                (num_vertices g) (num_vertices g) 0%nat
                (new_float_array g, new_long_array g,
                 new_float_array g, new_long_array g) s) as (L & Hin & _);
      [|reflexivity|exact E|].
    { unfold new_float_array, new_long_array. simpl.
      rewrite !length_replicate. auto. }
    split; [exact Hx|split; [exact Hn|split; [apply self_distances_write_distances|]]].
    split; [exact L|]. intros i Hi. apply Hin. lia.
  - intros g' Hx' Hn' Hv'. exists (write_distances s g').
    split; [apply Same; congruence|].
    rewrite !self_distances_write_distances. reflexivity.
Qed.

Lemma self_distances_deterministic_one_vertex :
  surface_self_distances one_vertex_measured two_sheets 1 50 tol_0_001
  = Ok one_vertex_measured.
Proof.
  apply (self_distances_deterministic one_vertex one_vertex_measured two_sheets
           1 50 tol_0_1 tol_0_001).
  vm_compute. reflexivity.
Defined.

(** C5 fails on the code.  The tolerance that [surface_self_distances]
    receives never reaches the query: any two tolerances give the same
    run.  With a locator that tells its tolerance, a query given 0.1 gets
    cell 1, yet the run given 0.1 writes cell 2, the answer to 0.001. *)
Theorem tolerance_not_passed :
  (forall (g : Graph) (locator : Locator) (dist_min dist_max : Z)
          (tolerance tolerance' : float),
      surface_self_distances g locator dist_min dist_max tolerance
      = surface_self_distances g locator dist_min dist_max tolerance')
  /\ get_dist_two_directions origin up tolerance_reader 3 400 tol_0_1
     = Ok (f10, 1, nan, -1)
  /\ surface_self_distances one_vertex tolerance_reader 3 400 tol_0_1
     = Ok (write_distances ([f10], [2], [nan], [-1]) one_vertex).
Proof.
  split; [reflexivity|]. split; vm_compute; reflexivity.
Qed.

(** ** File names *)

Lemma substring_prefix (s t : string) :
  substring 0 (String.length s) (s +:+ t) = s.
Proof.
  induction s as [|c s IH]; simpl.
  - destruct t; reflexivity.
  - rewrite IH. reflexivity.
Qed.

Lemma length_app_string (s t : string) :
  String.length (s +:+ t) = (String.length s + String.length t)%nat.
Proof. induction s as [|c s IH]; simpl; [reflexivity|rewrite IH; reflexivity]. Qed.

Lemma drop_last_suffix (s t : string) :
  drop_last (String.length t) (s +:+ t) = s.
Proof.
  unfold drop_last. rewrite length_app_string.
  replace (String.length s + String.length t - String.length t)%nat
    with (String.length s) by lia.
  apply substring_prefix.
Qed.

Lemma app_string_assoc (s t u : string) : (s +:+ t) +:+ u = s +:+ (t +:+ u).
Proof.
  induction s as [|c s IH]; [reflexivity|].
  change (String c ((s +:+ t) +:+ u) = String c (s +:+ (t +:+ u))).
  rewrite IH. reflexivity.
Qed.

(** C9 fails on the code.  For a graph file [stem.gt] the surface file is
    [stem.vtp] and the CSV of the distance pass is [stem.csv]; the CSV of
    the verticality pass drops four characters, not three, so it loses
    the last character of the stem, and the two CSV names differ. *)
Theorem csv_names (stem : string) :
  surface_file (stem +:+ ".gt") = stem +:+ ".vtp"
  /\ csvname (stem +:+ ".gt") = stem +:+ ".csv"
  /\ forall c : ascii,
      verticality_csvname ((stem +:+ String c "") +:+ ".gt") = stem +:+ ".csv"
      /\ verticality_csvname ((stem +:+ String c "") +:+ ".gt")
         <> csvname ((stem +:+ String c "") +:+ ".gt").
Proof.
  unfold surface_file, csvname, verticality_csvname.
  pose proof (drop_last_suffix stem ".gt") as H3.
  change (String.length ".gt") with 3%nat in H3.
  split; [|split].
  - rewrite H3. reflexivity.
  - rewrite H3. reflexivity.
  - intros c.
    pose proof (drop_last_suffix (stem +:+ String c "") ".gt") as H3c.
    change (String.length ".gt") with 3%nat in H3c.
    pose proof (drop_last_suffix stem (String c ".gt")) as H4.
    change (String.length (String c ".gt")) with 4%nat in H4.
    change (String c ".gt") with (String c "" +:+ ".gt") in H4.
    rewrite <- (app_string_assoc stem (String c "") ".gt") in H4.
    rewrite H3c, H4.
    split; [reflexivity|].
    intros E. apply (f_equal String.length) in E.
    rewrite !length_app_string in E. simpl in E. lia.
Qed.

Lemma csv_names_mesh :
  surface_file "mesh.gt" = "mesh.vtp"
  /\ csvname "mesh.gt" = "mesh.csv"
  /\ verticality_csvname "mesh.gt" = "mes.csv".
Proof. repeat split. Qed.

(** ** Verticality

    Line 111 rounds four times: the product by 180, the quotient by
    [np.pi] and the two differences.  Its result is bounded by following
    each rounding on the value of the float64 it rounds ([B2R]): a
    rounding answers one of the two float64 next to the number it is
    given, so it never steps over a float64. *)

(** *** Powers of two *)

Section Bpow.

Local Open Scope R_scope.

Lemma bpow_gt_0 (e : Z) : 0 < bpow e.
Proof. apply powerRZ_lt. lra. Qed.

Lemma bpow_add (a b : Z) : bpow (a + b) = bpow a * bpow b.
Proof. apply powerRZ_add. lra. Qed.

Lemma bpow_0 : bpow 0 = 1.
Proof. reflexivity. Qed.

Lemma bpow_1 : bpow 1 = 2.
Proof. unfold bpow. simpl. lra. Qed.

Lemma bpow_m1 : bpow (-1) = / 2.
Proof. unfold bpow. simpl. f_equal. lra. Qed.

Lemma bpow_succ (e : Z) : bpow (e + 1) = 2 * bpow e.
Proof. rewrite bpow_add, bpow_1. lra. Qed.

Lemma bpow_pred (e : Z) : bpow e = 2 * bpow (e - 1).
Proof. rewrite <- bpow_succ. f_equal. lia. Qed.

Lemma bpow_opp (e : Z) : bpow e * bpow (- e) = 1.
Proof. rewrite <- bpow_add. replace (e + - e)%Z with 0%Z by lia. reflexivity. Qed.

Lemma bpow_IZR (k : Z) : (0 <= k)%Z -> bpow k = IZR (2 ^ k).
Proof.
  revert k. apply natlike_ind.
  - reflexivity.
  - intros k Hk IH. rewrite Z.pow_succ_r by exact Hk.
    rewrite mult_IZR, <- IH. unfold Z.succ. rewrite bpow_succ. reflexivity.
Qed.

Lemma bpow_le (a b : Z) : (a <= b)%Z -> bpow a <= bpow b.
Proof.
  intros H. replace b with (a + (b - a))%Z by lia. rewrite bpow_add.
  assert (H1 : 1 <= bpow (b - a)).
  { rewrite bpow_IZR by lia. apply IZR_le.
    pose proof (Z.pow_pos_nonneg 2 (b - a)). lia. }
  pose proof (bpow_gt_0 a). nra.
Qed.

Lemma bpow_lt (a b : Z) : (a < b)%Z -> bpow a < bpow b.
Proof.
  intros H. replace b with ((b - a - 1) + a + 1)%Z by lia.
  rewrite bpow_succ, bpow_add.
  pose proof (bpow_le 0 (b - a - 1) ltac:(lia)) as H1. rewrite bpow_0 in H1.
  pose proof (bpow_gt_0 a). nra.
Qed.

Lemma bpow_lt_inv (a b : Z) : bpow a < bpow b -> (a < b)%Z.
Proof.
  intros H. destruct (Z_lt_le_dec a b) as [L|L]; [exact L|].
  apply bpow_le in L. lra.
Qed.

Lemma bpow_53 : bpow 53 = 9007199254740992.
Proof. rewrite bpow_IZR by lia. reflexivity. Qed.

Lemma bpow_52 : bpow 52 = 4503599627370496.
Proof. rewrite bpow_IZR by lia. reflexivity. Qed.

Lemma F2R_shift (m e k : Z) :
  (0 <= k)%Z -> F2R (m * 2 ^ k) (e - k) = F2R m e.
Proof.
  intros Hk. unfold F2R. rewrite mult_IZR, <- bpow_IZR by exact Hk.
  rewrite Rmult_assoc, <- bpow_add. do 2 f_equal. lia.
Qed.

End Bpow.

(** *** The number of bits of a mantissa *)

Section Digits.

Local Open Scope R_scope.

Lemma digits2_pos_bounds (p : positive) :
  bpow (Zpos (digits2_pos p) - 1) <= IZR (Zpos p)
  /\ IZR (Zpos p) + 1 <= bpow (Zpos (digits2_pos p)).
Proof.
  induction p as [p [L U]|p [L U]|]; cbn [digits2_pos].
  - rewrite Pos2Z.inj_succ. unfold Z.succ.
    replace (Zpos (digits2_pos p) + 1 - 1)%Z
      with (Zpos (digits2_pos p) - 1 + 1)%Z by lia.
    rewrite !bpow_succ, (Pos2Z.inj_xI p), plus_IZR, mult_IZR. lra.
  - rewrite Pos2Z.inj_succ. unfold Z.succ.
    replace (Zpos (digits2_pos p) + 1 - 1)%Z
      with (Zpos (digits2_pos p) - 1 + 1)%Z by lia.
    rewrite !bpow_succ, (Pos2Z.inj_xO p), mult_IZR. lra.
  - change (bpow 0 <= 1 /\ 1 + 1 <= bpow 1). rewrite bpow_0, bpow_1. lra.
Qed.

Lemma digits2_pos_unique (p : positive) (k : Z) :
  bpow (k - 1) <= IZR (Zpos p) -> IZR (Zpos p) + 1 <= bpow k ->
  Zpos (digits2_pos p) = k.
Proof.
  intros L U. destruct (digits2_pos_bounds p) as [L' U'].
  assert (H1 : (k - 1 < Zpos (digits2_pos p))%Z) by (apply bpow_lt_inv; lra).
  assert (H2 : (Zpos (digits2_pos p) - 1 < k)%Z) by (apply bpow_lt_inv; lra).
  lia.
Qed.

End Digits.

(** *** Shifting a mantissa to the right

    What [shr_1] drops is kept in the two rounding bits: the number that
    is being rounded stays in the unit interval of the mantissa. *)

Section Shr.

Local Open Scope R_scope.

Lemma shr_1_inbetween (x : R) (mrs : shr_record) :
  inbetween x mrs -> inbetween (x / 2) (shr_1 mrs).
Proof.
  destruct mrs as [m r s]. unfold inbetween. cbn [shr_m shr_r shr_s].
  intros (Hm & Hx & Hi).
  destruct m as [|[p|p|]|p]; [ | | | | lia]; cbn [shr_1 shr_m shr_r shr_s].
  - split; [lia|]. split; [lra|]. rewrite orb_false_l. intros H.
    specialize (Hi H). lra.
  - rewrite (Pos2Z.inj_xI p), plus_IZR, mult_IZR in Hx.
    split; [lia|]. split; [lra|]. intros _. lra.
  - rewrite (Pos2Z.inj_xO p), mult_IZR in Hx, Hi.
    split; [lia|]. split; [|rewrite orb_false_l; intros H; specialize (Hi H)];
      lra.
  - split; [lia|]. split; [lra|]. intros _. lra.
Qed.

Lemma iter_shr_1_inbetween (p : positive) :
  forall (x : R) (mrs : shr_record),
    inbetween x mrs ->
    inbetween (x * bpow (Zneg p)) (SpecFloat.iter_pos shr_1 p mrs).
Proof.
  induction p as [p IH|p IH|]; intros x mrs H; cbn [SpecFloat.iter_pos].
  - replace (x * bpow (Zneg p~1)) with (x / 2 * bpow (Zneg p) * bpow (Zneg p)).
    + apply IH, IH, shr_1_inbetween, H.
    + replace (Zneg p~1) with (-1 + Zneg p + Zneg p)%Z by lia.
      rewrite !bpow_add, bpow_m1. lra.
  - replace (x * bpow (Zneg p~0)) with (x * bpow (Zneg p) * bpow (Zneg p)).
    + apply IH, IH, H.
    + replace (Zneg p~0) with (Zneg p + Zneg p)%Z by lia.
      rewrite !bpow_add. lra.
  - replace (x * bpow (-1)) with (x / 2) by (rewrite bpow_m1; lra).
    apply shr_1_inbetween, H.
Qed.

Lemma shr_fexp_inbetween (m e : Z) (l : location) (x : R) :
  inbetween x (shr_record_of_loc m l) ->
  (e <= fexp prec emax (Zdigits2 m + e))%Z ->
  exists mrs',
    shr_fexp prec emax m e l = (mrs', fexp prec emax (Zdigits2 m + e))
    /\ inbetween (x * bpow (e - fexp prec emax (Zdigits2 m + e))) mrs'.
Proof.
  intros H Hn. unfold shr_fexp, shr.
  set (e1 := fexp prec emax (Zdigits2 m + e)) in *.
  destruct (e1 - e)%Z as [|p|p] eqn:E.
  - exists (shr_record_of_loc m l). split; [f_equal; lia|].
    replace (e - e1)%Z with 0%Z by lia. rewrite bpow_0, Rmult_1_r. exact H.
  - exists (SpecFloat.iter_pos shr_1 p (shr_record_of_loc m l)).
    split; [f_equal; lia|].
    replace (e - e1)%Z with (Zneg p) by lia. apply iter_shr_1_inbetween, H.
  - lia.
Qed.

Lemma round_nearest_even_cases (mrs : shr_record) :
  round_nearest_even (shr_m mrs) (loc_of_shr_record mrs) = shr_m mrs
  \/ (round_nearest_even (shr_m mrs) (loc_of_shr_record mrs) = (shr_m mrs + 1)%Z
      /\ shr_r mrs || shr_s mrs = true).
Proof.
  destruct mrs as [m [|] [|]]; simpl; auto.
  destruct (Z.even m); auto.
Qed.

Lemma shr_record_of_loc_m (m : Z) (l : location) :
  shr_m (shr_record_of_loc m l) = m.
Proof. destruct l as [|[| |]]; reflexivity. Qed.

End Shr.

(** *** Rounding

    [binary_round_aux] answers one of the two float64 next to the number
    it rounds, and the lower one when the number is a float64. *)

Section Rounding.

Local Open Scope R_scope.

Lemma fexp_eq (e : Z) : fexp prec emax e = Z.max (e - 53) (-1074).
Proof. reflexivity. Qed.

Lemma binary_round_aux_finish (m2 e1 : Z) :
  (0 <= m2 <= 9007199254740992)%Z -> (-1074 <= e1)%Z ->
  (e1 = -1074 \/ 4503599627370496 <= m2)%Z ->
  exists (mrs : shr_record) (e2 : Z),
    shr_fexp prec emax m2 e1 loc_Exact = (mrs, e2)
    /\ ((shr_m mrs = 0%Z /\ m2 = 0%Z)
        \/ exists p : positive,
             shr_m mrs = Zpos p /\ F2R (Zpos p) e2 = F2R m2 e1
             /\ (Zpos p < 9007199254740992)%Z /\ (-1074 <= e2)%Z
             /\ (e2 = -1074 \/ 4503599627370496 <= Zpos p)%Z
             /\ ((971 < e2)%Z -> bpow 1024 <= F2R m2 e1)).
Proof.
  intros Hm He Hc. unfold shr_fexp, shr.
  destruct (Z.eq_dec m2 9007199254740992%Z) as [->|Hne].
  - (* the rounding carried into a new digit *)
    change (Zdigits2 9007199254740992%Z) with 54%Z. rewrite fexp_eq.
    replace (Z.max (54 + e1 - 53) (-1074) - e1)%Z with 1%Z by lia.
    eexists _, _. split; [reflexivity|]. right.
    exists 4503599627370496%positive. cbn [shr_m shr_1 shr_record_of_loc
      SpecFloat.iter_pos].
    split; [reflexivity|]. split.
    { unfold F2R. rewrite bpow_succ. lra. }
    split; [lia|]. split; [lia|]. split; [lia|].
    intros Hbig. unfold F2R. rewrite <- bpow_53, <- bpow_add.
    apply bpow_le. lia.
  - destruct m2 as [|p|p]; [ | |lia].
    + change (Zdigits2 0) with 0%Z. rewrite fexp_eq.
      destruct (Z.max (0 + e1 - 53) (-1074) - e1)%Z as [|q|q] eqn:E;
        [ |lia| ];
        (eexists _, _; split; [reflexivity|]; left; split; reflexivity).
    + cbn [Zdigits2]. rewrite fexp_eq.
      destruct (digits2_pos_bounds p) as [L U].
      assert (Hd : (Zpos (digits2_pos p) <= 53)%Z).
      { assert (Hlt : bpow (Zpos (digits2_pos p) - 1) < bpow 53).
        { rewrite bpow_53. apply Rle_lt_trans with (1 := L).
          apply IZR_lt. lia. }
        apply bpow_lt_inv in Hlt. lia. }
      destruct (Z.max (Zpos (digits2_pos p) + e1 - 53) (-1074) - e1)%Z
        as [|q|q] eqn:E; [ |lia| ];
        (eexists _, _; split; [reflexivity|]; right; exists p;
         cbn [shr_m shr_record_of_loc];
         split; [reflexivity|]; split; [reflexivity|];
         split; [lia|]; split; [lia|]; split; [lia|];
         intros Hbig; destruct Hc as [Hc|Hc]; [lia|];
         unfold F2R; replace 1024%Z with (52 + 972)%Z by lia;
         rewrite bpow_add, bpow_52;
         apply Rmult_le_compat;
         [lra | apply Rlt_le, bpow_gt_0 | apply IZR_le; lia
         | apply bpow_le; lia]).
Qed.

Lemma binary_round_aux_grid (m e : Z) (l : location) (X : R) :
  inbetween (X * bpow (- e)) (shr_record_of_loc m l) ->
  ((0 < m)%Z /\ (e <= fexp prec emax (Zdigits2 m + e))%Z)
  \/ (m = 0%Z /\ (e <= -1074)%Z) ->
  exists (m1 e1 : Z) (up : bool),
    (-1074 <= e1)%Z /\ (0 <= m1 < 9007199254740992)%Z
    /\ (e1 = -1074 \/ 4503599627370496 <= m1)%Z
    /\ IZR m1 <= X * bpow (- e1) < IZR m1 + 1
    /\ (up = true -> IZR m1 < X * bpow (- e1))
    /\ ((canonical_pos (binary_round_aux prec emax false m e l)
         /\ B2R (binary_round_aux prec emax false m e l)
            = F2R (if up then m1 + 1 else m1)%Z e1)
        \/ (binary_round_aux prec emax false m e l = S754_infinity false
            /\ bpow 1024 <= F2R (if up then m1 + 1 else m1)%Z e1)).
Proof.
  intros H Hpre.
  assert (Hn : (e <= fexp prec emax (Zdigits2 m + e))%Z).
  { destruct Hpre as [[_ Hn]|[-> Hn]]; [exact Hn|].
    change (Zdigits2 0) with 0%Z. rewrite fexp_eq. lia. }
  destruct (shr_fexp_inbetween m e l _ H Hn) as (mrs & E1 & H1).
  set (e1 := fexp prec emax (Zdigits2 m + e)) in *.
  assert (He1 : (-1074 <= e1)%Z) by (subst e1; rewrite fexp_eq; lia).
  replace (X * bpow (- e) * bpow (e - e1)) with (X * bpow (- e1)) in H1
    by (rewrite Rmult_assoc, <- bpow_add; do 2 f_equal; lia).
  assert (Hx : X * bpow (- e1) = X * bpow (- e) * bpow (e - e1))
    by (rewrite Rmult_assoc, <- bpow_add; do 2 f_equal; lia).
  destruct H as (Hm0 & Hxm & _). rewrite shr_record_of_loc_m in Hm0, Hxm.
  destruct H1 as (Hm1 & Hx1 & Hi1).
  pose proof (bpow_gt_0 (e - e1)) as Hpos.
  assert (Hlt : (shr_m mrs < 9007199254740992)%Z).
  { apply lt_IZR. apply Rle_lt_trans with (1 := proj1 Hx1).
    rewrite Hx, <- bpow_53.
    destruct Hpre as [[Hm _]|[-> He]].
    - destruct m as [|p|p]; try lia. destruct (digits2_pos_bounds p) as [L U].
      apply Rlt_le_trans with (bpow (Zpos (digits2_pos p)) * bpow (e - e1)).
      + apply Rmult_lt_compat_r; [exact Hpos|]. lra.
      + rewrite <- bpow_add. apply bpow_le. subst e1. rewrite fexp_eq.
        cbn [Zdigits2]. lia.
    - apply Rlt_le_trans with (1 * bpow (e - e1)).
      + apply Rmult_lt_compat_r; [exact Hpos|]. simpl in Hxm. lra.
      + rewrite Rmult_1_l. apply bpow_le. lia. }
  assert (Hc : (e1 = -1074 \/ 4503599627370496 <= shr_m mrs)%Z).
  { destruct (Z.eq_dec e1 (-1074)%Z) as [E|E]; [left; exact E|right].
    destruct Hpre as [[Hm _]|[-> He]].
    - destruct m as [|p|p]; try lia. destruct (digits2_pos_bounds p) as [L U].
      assert (Ee : (e1 = Zpos (digits2_pos p) + e - 53)%Z)
        by (subst e1; rewrite fexp_eq in *; cbn [Zdigits2] in *; lia).
      assert (Hge : bpow 52 <= X * bpow (- e1)).
      { rewrite Hx.
        replace 52%Z with ((Zpos (digits2_pos p) - 1) + (e - e1))%Z by lia.
        rewrite bpow_add. apply Rmult_le_compat_r; [lra|]. lra. }
      rewrite bpow_52 in Hge.
      assert (Hz : (4503599627370496 < shr_m mrs + 1)%Z).
      { apply lt_IZR. rewrite plus_IZR. lra. }
      lia.
    - exfalso. apply E. subst e1. change (Zdigits2 0) with 0%Z.
      rewrite fexp_eq. lia. }
  exists (shr_m mrs), e1.
  assert (Hup : exists up : bool,
             round_nearest_even (shr_m mrs) (loc_of_shr_record mrs)
             = (if up then shr_m mrs + 1 else shr_m mrs)%Z
             /\ (up = true -> IZR (shr_m mrs) < X * bpow (- e1))).
  { destruct (round_nearest_even_cases mrs) as [E|[E Hr]].
    - exists false. split; [exact E|discriminate].
    - exists true. split; [exact E|]. intros _. apply Hi1, Hr. }
  destruct Hup as (up & Eup & Hupx). exists up.
  split; [exact He1|]. split; [lia|]. split; [exact Hc|].
  split; [exact Hx1|]. split; [exact Hupx|].
  set (m2 := (if up then shr_m mrs + 1 else shr_m mrs)%Z) in *.
  assert (Hm2 : (0 <= m2 <= 9007199254740992)%Z)
    by (subst m2; destruct up; lia).
  assert (Hc2 : (e1 = -1074 \/ 4503599627370496 <= m2)%Z)
    by (subst m2; destruct up; lia).
  destruct (binary_round_aux_finish m2 e1 Hm2 He1 Hc2)
    as (mrs2 & e2 & E2 & Hres).
  unfold binary_round_aux. rewrite E1, Eup, E2.
  destruct Hres as [[Ez Em]|(p & Ep & Ev & Hp & He2 & Hcp & Hbig)].
  - rewrite Ez. left. split; [exact I|]. rewrite Em. unfold F2R. simpl. lra.
  - rewrite Ep. change (emax - prec)%Z with 971%Z.
    destruct (Z.leb_spec e2 971) as [Hle|Hgt].
    + left. split; [|exact Ev]. simpl. repeat split; lia.
    + right. split; [reflexivity|]. apply Hbig, Hgt.
Qed.

End Rounding.

(** *** Rounding and the order of float64 *)

Section Order.

Local Open Scope R_scope.

Lemma F2R_unscale (X : R) (e : Z) : X * bpow (- e) * bpow e = X.
Proof.
  rewrite Rmult_assoc, (Rmult_comm (bpow (- e))), bpow_opp. lra.
Qed.

Lemma grid_le (m1 e1 : Z) (up : bool) (X : R) (mB : positive) (eB : Z) :
  (-1074 <= e1)%Z -> (e1 = -1074 \/ 4503599627370496 <= m1)%Z ->
  IZR m1 <= X * bpow (- e1) ->
  (up = true -> IZR m1 < X * bpow (- e1)) ->
  canonical_pos (S754_finite false mB eB) ->
  X <= F2R (Zpos mB) eB ->
  F2R (if up then m1 + 1 else m1)%Z e1 <= F2R (Zpos mB) eB.
Proof.
  intros He1 Hc Hlo Hup (HeB & HmB & HcB) HX.
  pose proof (bpow_gt_0 e1) as Hp1. pose proof (bpow_gt_0 (- e1)) as Hp2.
  destruct up.
  - specialize (Hup eq_refl).
    assert (Hy : X * bpow (- e1) <= IZR (Zpos mB) * bpow (eB - e1)).
    { unfold F2R in HX. replace (eB - e1)%Z with (eB + - e1)%Z by lia.
      rewrite bpow_add, <- Rmult_assoc.
      apply Rmult_le_compat_r; [lra|exact HX]. }
    destruct (Z_le_gt_dec e1 eB) as [Hle|Hgt].
    + rewrite (bpow_IZR (eB - e1)), <- mult_IZR in Hy by lia.
      assert (Hz : (m1 < Zpos mB * 2 ^ (eB - e1))%Z) by (apply lt_IZR; lra).
      unfold F2R. replace (bpow eB) with (bpow ((eB - e1) + e1))
        by (f_equal; lia).
      rewrite bpow_add, <- Rmult_assoc, (bpow_IZR (eB - e1)), <- mult_IZR by lia.
      apply Rmult_le_compat_r; [lra|]. apply IZR_le. lia.
    + exfalso. destruct Hc as [Hc|Hc]; [lia|].
      assert (Hh : bpow (eB - e1) <= / 2)
        by (rewrite <- bpow_m1; apply bpow_le; lia).
      assert (H1 : IZR (Zpos mB) < 9007199254740992) by (apply IZR_lt; lia).
      assert (H2 : 4503599627370496 <= IZR m1) by (apply IZR_le; lia).
      assert (H3 : 0 < IZR (Zpos mB)) by (apply IZR_lt; lia).
      pose proof (bpow_gt_0 (eB - e1)). nra.
  - unfold F2R at 1. rewrite <- (F2R_unscale X e1) in HX.
    apply Rle_trans with (2 := HX). apply Rmult_le_compat_r; [lra|exact Hlo].
Qed.

Lemma canonical_pos_lt_max (mB : positive) (eB : Z) :
  canonical_pos (S754_finite false mB eB) -> F2R (Zpos mB) eB < bpow 1024.
Proof.
  intros (HeB & HmB & _). unfold F2R.
  replace 1024%Z with (53 + 971)%Z by lia. rewrite bpow_add, bpow_53.
  assert (H1 : IZR (Zpos mB) < 9007199254740992) by (apply IZR_lt; lia).
  assert (H2 : bpow eB <= bpow 971) by (apply bpow_le; lia).
  assert (H3 : 0 < IZR (Zpos mB)) by (apply IZR_lt; lia).
  pose proof (bpow_gt_0 eB). nra.
Qed.

(** Rounding does not step over a float64: what lies below [B] rounds to
    a float64 that is not above [B]. *)
Lemma binary_round_aux_le (m e : Z) (l : location) (X : R)
    (mB : positive) (eB : Z) :
  inbetween (X * bpow (- e)) (shr_record_of_loc m l) ->
  ((0 < m)%Z /\ (e <= fexp prec emax (Zdigits2 m + e))%Z)
  \/ (m = 0%Z /\ (e <= -1074)%Z) ->
  canonical_pos (S754_finite false mB eB) ->
  X <= F2R (Zpos mB) eB ->
  canonical_pos (binary_round_aux prec emax false m e l)
  /\ B2R (binary_round_aux prec emax false m e l) <= F2R (Zpos mB) eB.
Proof.
  intros H Hpre HB HX.
  destruct (binary_round_aux_grid m e l X H Hpre)
    as (m1 & e1 & up & He1 & Hm1 & Hc & Hx1 & Hup & Hres).
  pose proof (grid_le m1 e1 up X mB eB He1 Hc (proj1 Hx1) Hup HB HX) as Hle.
  destruct Hres as [[Hcan Hv]|[_ Hbig]].
  - split; [exact Hcan|]. rewrite Hv. exact Hle.
  - exfalso. pose proof (canonical_pos_lt_max mB eB HB). lra.
Qed.

Lemma F2R_lt_bpow (m : positive) (e k : Z) :
  (Zpos m < 2 ^ k)%Z -> (0 <= k)%Z -> F2R (Zpos m) e < bpow (k + e).
Proof.
  intros Hm Hk. unfold F2R. rewrite bpow_add, (bpow_IZR k) by exact Hk.
  apply Rmult_lt_compat_r; [apply bpow_gt_0|]. apply IZR_lt, Hm.
Qed.

Lemma F2R_ge_bpow (m : positive) (e k : Z) :
  (2 ^ k <= Zpos m)%Z -> (0 <= k)%Z -> bpow (k + e) <= F2R (Zpos m) e.
Proof.
  intros Hm Hk. unfold F2R. rewrite bpow_add, (bpow_IZR k) by exact Hk.
  apply Rmult_le_compat_r; [apply Rlt_le, bpow_gt_0|]. apply IZR_le, Hm.
Qed.

(** The order of two canonical float64 that are not negative is the order
    of their values. *)
Lemma leb_of_Rle (x y : float) :
  canonical_pos x -> canonical_pos y -> B2R x <= B2R y -> leb x y = true.
Proof.
  destruct x as [[|]|[|]| |[|] mx ex]; simpl; try tauto;
    destruct y as [[|]|[|]| |[|] my ey]; simpl; try tauto.
  - intros _ _ H. exfalso.
    assert (0 < F2R (Zpos mx) ex)
      by (apply Rmult_lt_0_compat; [apply IZR_lt; lia|apply bpow_gt_0]).
    lra.
  - intros (Hex & Hmx & Hcx) (Hey & Hmy & Hcy) H.
    unfold leb, SFleb, SFcompare.
    destruct (Z.compare_spec ex ey) as [E|L|G]; [|reflexivity|].
    + subst ey. unfold F2R in H.
      apply Rmult_le_reg_r in H; [|apply bpow_gt_0]. apply le_IZR in H.
      change (Pos.compare_cont Eq mx my) with (Pos.compare mx my).
      destruct (Pos.compare_spec mx my); [reflexivity|reflexivity|lia].
    + exfalso. destruct Hcx as [Hcx|Hcx]; [lia|].
      pose proof (F2R_lt_bpow my ey 53 ltac:(lia) ltac:(lia)) as H1.
      pose proof (F2R_ge_bpow mx ex 52 ltac:(lia) ltac:(lia)) as H2.
      assert (H3 : bpow (53 + ey) <= bpow (52 + ex)) by (apply bpow_le; lia).
      lra.
Qed.

(** Below a float64 [B] with a full mantissa, the next float64 is at
    least half a unit of its last place away. *)
Lemma lt_gap (ma : positive) (ea : Z) (mB : positive) (eB : Z) :
  (Zpos ma < 9007199254740992)%Z -> (4503599627370496 <= Zpos mB)%Z ->
  SFcompare (S754_finite false ma ea) (S754_finite false mB eB) = Some Lt ->
  F2R (Zpos ma) ea <= F2R (Zpos mB) eB - bpow (eB - 1).
Proof.
  intros Hma HmB. unfold SFcompare.
  pose proof (bpow_gt_0 (eB - 1)) as Hp.
  destruct (Z.compare_spec ea eB) as [E|L|G]; [| |discriminate].
  - subst ea. change (Pos.compare_cont Eq ma mB) with (Pos.compare ma mB).
    destruct (Pos.compare_spec ma mB) as [E|L|G]; try discriminate.
    intros _. unfold F2R. rewrite (bpow_pred eB).
    assert (H1 : IZR (Zpos ma) + 1 <= IZR (Zpos mB))
      by (rewrite <- plus_IZR; apply IZR_le; lia).
    nra.
  - intros _. unfold F2R. rewrite (bpow_pred eB).
    assert (H1 : IZR (Zpos ma) + 1 <= 9007199254740992)
      by (rewrite <- plus_IZR; apply IZR_le; lia).
    assert (H2 : 4503599627370496 <= IZR (Zpos mB)) by (apply IZR_le; lia).
    assert (H3 : bpow ea <= bpow (eB - 1)) by (apply bpow_le; lia).
    assert (H4 : 0 < IZR (Zpos ma)) by (apply IZR_lt; lia).
    pose proof (bpow_gt_0 ea). nra.
Qed.

Lemma compare_Eq_eq (ma : positive) (ea : Z) (mB : positive) (eB : Z) :
  SFcompare (S754_finite false ma ea) (S754_finite false mB eB) = Some Eq ->
  S754_finite false ma ea = S754_finite false mB eB.
Proof.
  unfold SFcompare. destruct (Z.compare_spec ea eB) as [E|L|G];
    try discriminate.
  change (Pos.compare_cont Eq ma mB) with (Pos.compare ma mB).
  destruct (Pos.compare_spec ma mB) as [E'|L|G]; try discriminate.
  intros _. subst. reflexivity.
Qed.

Lemma valid_binary_canonical_pos (m : positive) (e : Z) :
  valid_binary prec emax (S754_finite false m e) = true ->
  canonical_pos (S754_finite false m e).
Proof.
  unfold valid_binary, SpecFloat.bounded, SpecFloat.canonical_mantissa.
  rewrite fexp_eq.
  change (emax - prec)%Z with 971%Z.
  intros H. apply andb_true_iff in H as [H1 H2].
  apply Z.eqb_eq in H1. apply Z.leb_le in H2.
  destruct (digits2_pos_bounds m) as [L U]. simpl.
  split; [lia|]. split.
  - apply lt_IZR. rewrite <- bpow_53.
    assert (bpow (Zpos (digits2_pos m)) <= bpow 53) by (apply bpow_le; lia).
    lra.
  - destruct (Z.eq_dec e (-1074)%Z) as [E|E]; [left; exact E|right].
    apply le_IZR. rewrite <- bpow_52.
    replace 52%Z with (Zpos (digits2_pos m) - 1)%Z by lia. exact L.
Qed.

End Order.

(** *** Products, quotients and differences below a float64 *)

Section Operations.

Local Open Scope R_scope.

Lemma bpow_neg (e : Z) : bpow (- e) = / bpow e.
Proof.
  pose proof (bpow_gt_0 e) as H. apply Rmult_eq_reg_l with (bpow e); [|lra].
  rewrite bpow_opp, Rinv_r; lra.
Qed.

Lemma F2R_mul (a ea c ec : Z) : F2R a ea * F2R c ec = F2R (a * c) (ea + ec).
Proof. unfold F2R. rewrite mult_IZR, bpow_add. ring. Qed.

Lemma F2R_scaled (m e : Z) : F2R m e * bpow (- e) = IZR m.
Proof. unfold F2R. rewrite Rmult_assoc, bpow_opp. ring. Qed.

Lemma F2R_sub (a b e : Z) : F2R (a - b) e = F2R a e - F2R b e.
Proof. unfold F2R. rewrite minus_IZR. ring. Qed.

Lemma F2R_pos (m : positive) (e : Z) : 0 < F2R (Zpos m) e.
Proof.
  apply Rmult_lt_0_compat; [apply IZR_lt; lia|apply bpow_gt_0].
Qed.

Lemma F2R_neg (m : positive) (e : Z) : F2R (Zneg m) e = - F2R (Zpos m) e.
Proof.
  unfold F2R. change (Zneg m) with (- Zpos m)%Z. rewrite opp_IZR. ring.
Qed.

Lemma inbetween_exact (m : Z) : (0 <= m)%Z ->
  inbetween (IZR m) (shr_record_of_loc m loc_Exact).
Proof.
  intros H. unfold inbetween. cbn. split; [exact H|]. split; [lra|].
  discriminate.
Qed.

(** The product of a float64 with a float64 of full mantissa. *)
Lemma mul_le_bound (ma : positive) (ea : Z) (mc : positive) (ec : Z)
    (mB : positive) (eB : Z) :
  (4503599627370496 <= Zpos mc)%Z ->
  canonical_pos (S754_finite false mB eB) ->
  F2R (Zpos ma) ea * F2R (Zpos mc) ec <= F2R (Zpos mB) eB ->
  canonical_pos (mul (S754_finite false ma ea) (S754_finite false mc ec))
  /\ B2R (mul (S754_finite false ma ea) (S754_finite false mc ec))
     <= F2R (Zpos mB) eB.
Proof.
  intros Hc HB HX. unfold mul, SFmul. cbn [xorb].
  apply binary_round_aux_le
    with (X := F2R (Zpos ma) ea * F2R (Zpos mc) ec); [ | |exact HB|exact HX].
  - rewrite F2R_mul, F2R_scaled. apply inbetween_exact. lia.
  - left. split; [lia|]. cbn [Zdigits2]. rewrite fexp_eq.
    destruct (digits2_pos_bounds (ma * mc)) as [_ U].
    assert (Hd : (52 < Zpos (digits2_pos (ma * mc)))%Z).
    { apply bpow_lt_inv. rewrite bpow_52.
      apply Rlt_le_trans with (2 := U).
      assert (4503599627370496 <= IZR (Zpos (ma * mc))) by (apply IZR_le; nia).
      lra. }
    lia.
Qed.

(** The quotient and its remainder, as [SFdiv] hands them to the
    rounding. *)
Lemma SFdiv_core_binary_inbetween (mx : positive) (ex : Z)
    (my : positive) (ey : Z) :
  forall (q e' : Z) (l : location),
    SFdiv_core_binary prec emax (Zpos mx) ex (Zpos my) ey = (q, e', l) ->
    inbetween (F2R (Zpos mx) ex / F2R (Zpos my) ey * bpow (- e'))
              (shr_record_of_loc q l)
    /\ (((0 < q)%Z /\ (e' <= fexp prec emax (Zdigits2 q + e'))%Z)
        \/ (q = 0%Z /\ (e' <= -1074)%Z)).
Proof.
  intros q e' l. unfold SFdiv_core_binary. rewrite fexp_eq. cbn [Zdigits2].
  set (d1 := Zpos (digits2_pos mx)). set (d2 := Zpos (digits2_pos my)).
  set (e0 := Z.min (Z.max (d1 + ex - (d2 + ey) - 53) (-1074)) (ex - ey)).
  set (s := (ex - ey - e0)%Z).
  set (m' := match s with
             | 0%Z => Zpos mx
             | Zpos _ => Z.shiftl (Zpos mx) s
             | Zneg _ => 0%Z
             end).
  assert (Hs : (0 <= s)%Z) by (subst s e0; lia).
  assert (Em : m' = (Zpos mx * 2 ^ s)%Z).
  { subst m'. destruct s as [|p|p]; [lia| |lia].
    apply Z.shiftl_mul_pow2. lia. }
  pose proof (Z_div_mod m' (Zpos my) ltac:(lia)) as Hdiv.
  destruct (Z.div_eucl m' (Zpos my)) as [q0 r]. destruct Hdiv as [Eq Hr].
  intros E. injection E as <- <- <-.
  assert (Hpow : (0 < 2 ^ s)%Z) by (apply Z.pow_pos_nonneg; lia).
  assert (Hq0 : (0 <= q0)%Z) by nia.
  pose proof (F2R_pos my ey) as Hpy.
  assert (Hy : 0 < IZR (Zpos my)) by (apply IZR_lt; lia).
  assert (Ex : F2R (Zpos mx) ex / F2R (Zpos my) ey * bpow (- e0)
               = IZR m' / IZR (Zpos my)).
  { rewrite Em, mult_IZR, <- bpow_IZR by exact Hs. unfold F2R. subst s.
    replace (ex - ey - e0)%Z with (ex + (- ey + - e0))%Z by lia.
    rewrite !bpow_add, (bpow_neg ey).
    pose proof (bpow_gt_0 ey). field. split; lra. }
  rewrite Ex. set (x := IZR m' / IZR (Zpos my)).
  assert (Exm : x * IZR (Zpos my) = IZR m') by (subst x; field; lra).
  assert (Hqr : IZR m' = IZR (Zpos my) * IZR q0 + IZR r)
    by (rewrite <- mult_IZR, <- plus_IZR; f_equal; exact Eq).
  assert (Hr0 : 0 <= IZR r) by (apply IZR_le; lia).
  assert (Hr1 : IZR r < IZR (Zpos my)) by (apply IZR_lt; lia).
  assert (Hlo : IZR q0 <= x) by nra.
  assert (Hhi : x < IZR q0 + 1) by nra.
  split.
  - unfold inbetween. rewrite shr_record_of_loc_m.
    split; [exact Hq0|]. split; [split; [exact Hlo|exact Hhi]|].
    intros Hl. assert (Hrne : r <> 0%Z).
    { intros ->. revert Hl. unfold new_location, new_location_even,
        new_location_odd. destruct (Z.even (Zpos my)); discriminate. }
    assert (0 < IZR r) by (apply IZR_lt; lia). nra.
  - destruct (digits2_pos_bounds mx) as [L1 U1].
    destruct (digits2_pos_bounds my) as [L2 U2]. fold d1 in L1, U1.
    fold d2 in L2, U2.
    assert (Hm' : bpow (d1 - 1 + s) <= IZR m').
    { rewrite Em, mult_IZR, bpow_add, <- bpow_IZR by exact Hs.
      apply Rmult_le_compat_r; [apply Rlt_le, bpow_gt_0|exact L1]. }
    destruct (Z.eq_dec q0 0%Z) as [->|Hne].
    + right. split; [reflexivity|].
      assert (Hlt : bpow (d1 - 1 + s) < bpow d2) by (simpl in Hqr; lra).
      apply bpow_lt_inv in Hlt. subst s e0. lia.
    + left. split; [lia|]. rewrite fexp_eq.
      destruct q0 as [|pq|pq]; [lia| |lia]. cbn [Zdigits2].
      destruct (digits2_pos_bounds pq) as [Lq Uq].
      set (dq := Zpos (digits2_pos pq)) in *.
      assert (Hlt : bpow (d1 - 1 + s) < bpow (d2 + dq)).
      { rewrite (bpow_add d2 dq). apply Rle_lt_trans with (1 := Hm').
        assert (0 < IZR (Zpos pq)) by (apply IZR_lt; lia).
        pose proof (bpow_gt_0 d2). pose proof (bpow_gt_0 dq). nra. }
      apply bpow_lt_inv in Hlt. subst s e0. lia.
Qed.

Lemma Rdiv_le_bound (a b c : R) : 0 < b -> a <= c * b -> a / b <= c.
Proof.
  intros Hb H. apply Rmult_le_reg_r with b; [exact Hb|].
  unfold Rdiv. rewrite Rmult_assoc, Rinv_l by lra. lra.
Qed.

Lemma div_le_bound (mx : positive) (ex : Z) (my : positive) (ey : Z)
    (mB : positive) (eB : Z) :
  canonical_pos (S754_finite false mB eB) ->
  F2R (Zpos mx) ex <= F2R (Zpos mB) eB * F2R (Zpos my) ey ->
  canonical_pos (div (S754_finite false mx ex) (S754_finite false my ey))
  /\ B2R (div (S754_finite false mx ex) (S754_finite false my ey))
     <= F2R (Zpos mB) eB.
Proof.
  intros HB HX. unfold div, SFdiv. cbn [xorb].
  destruct (SFdiv_core_binary prec emax (Zpos mx) ex (Zpos my) ey)
    as [[q e'] l] eqn:E.
  destruct (SFdiv_core_binary_inbetween mx ex my ey q e' l E) as [Hin Hpre].
  apply binary_round_aux_le
    with (X := F2R (Zpos mx) ex / F2R (Zpos my) ey);
    [exact Hin|exact Hpre|exact HB|].
  apply Rdiv_le_bound; [apply F2R_pos|exact HX].
Qed.

Lemma shift_pos (m d : positive) :
  Zpos (Pos.iter xO m d) = (Zpos m * 2 ^ Zpos d)%Z.
Proof.
  rewrite <- Z.shiftl_mul_pow2 by lia. unfold Z.shiftl.
  apply Pos.iter_swap_gen. intros a. reflexivity.
Qed.

Lemma shl_align_fst (mx : positive) (ex ez : Z) :
  (ez <= ex)%Z ->
  F2R (Zpos (fst (shl_align mx ex ez))) ez = F2R (Zpos mx) ex.
Proof.
  intros H. unfold shl_align. destruct (ez - ex)%Z as [|d|d] eqn:E.
  - simpl. f_equal. lia.
  - lia.
  - simpl. rewrite shift_pos. replace ez with (ex - Zpos d)%Z by lia.
    apply F2R_shift. lia.
Qed.

Lemma binary_round_le (m : positive) (e : Z) (mB : positive) (eB : Z) :
  canonical_pos (S754_finite false mB eB) ->
  F2R (Zpos m) e <= F2R (Zpos mB) eB ->
  canonical_pos (binary_round prec emax false m e)
  /\ B2R (binary_round prec emax false m e) <= F2R (Zpos mB) eB.
Proof.
  intros HB HX. unfold binary_round.
  set (e1 := fexp prec emax (Zpos (digits2_pos m) + e)).
  assert (Hal : exists mz ez,
             shl_align m e e1 = (mz, ez)
             /\ F2R (Zpos mz) ez = F2R (Zpos m) e
             /\ (ez <= fexp prec emax (Zpos (digits2_pos mz) + ez))%Z).
  { unfold shl_align. destruct (e1 - e)%Z as [|d|d] eqn:E.
    - exists m, e. split; [reflexivity|]. split; [reflexivity|].
      fold e1. lia.
    - exists m, e. split; [reflexivity|]. split; [reflexivity|].
      fold e1. lia.
    - exists (Pos.iter xO m d), e1. split; [reflexivity|].
      assert (Ev : F2R (Zpos (Pos.iter xO m d)) e1 = F2R (Zpos m) e).
      { rewrite shift_pos. replace e1 with (e - Zpos d)%Z by lia.
        apply F2R_shift. lia. }
      split; [exact Ev|].
      assert (Ed : Zpos (digits2_pos (Pos.iter xO m d))
                   = (Zpos (digits2_pos m) + Zpos d)%Z).
      { destruct (digits2_pos_bounds m) as [L U].
        apply digits2_pos_unique; rewrite shift_pos, mult_IZR,
          <- bpow_IZR by lia.
        - replace (Zpos (digits2_pos m) + Zpos d - 1)%Z
            with (Zpos (digits2_pos m) - 1 + Zpos d)%Z by lia.
          rewrite bpow_add. apply Rmult_le_compat_r;
            [apply Rlt_le, bpow_gt_0|exact L].
        - rewrite bpow_add.
          assert (1 <= bpow (Zpos d))
            by (rewrite <- bpow_0; apply bpow_le; lia).
          nra. }
      rewrite Ed. replace (Zpos (digits2_pos m) + Zpos d + e1)%Z
        with (Zpos (digits2_pos m) + e)%Z by lia.
      fold e1. lia. }
  destruct Hal as (mz & ez & -> & Ev & Hpre).
  apply binary_round_aux_le with (X := F2R (Zpos m) e);
    [ | |exact HB|exact HX].
  - rewrite <- Ev, F2R_scaled. apply inbetween_exact. lia.
  - left. split; [lia|exact Hpre].
Qed.

Lemma SFabs_binary_round (s : bool) (m : positive) (e : Z) :
  SFabs (binary_round prec emax s m e) = binary_round prec emax false m e.
Proof.
  unfold binary_round. destruct (shl_align _ _ _) as [mz ez].
  unfold binary_round_aux. destruct (shr_fexp _ _ _ _ _) as [mrs e1].
  destruct (shr_fexp _ _ _ _ _) as [mrs2 e2].
  destruct (shr_m mrs2); try reflexivity.
  destruct (e2 <=? emax - prec)%Z; reflexivity.
Qed.

(** The difference of two float64 that are not negative. *)
Lemma sub_value (mx : positive) (ex : Z) (my : positive) (ey : Z) :
  exists n : Z,
    sub (S754_finite false mx ex) (S754_finite false my ey)
    = binary_normalize prec emax n (Z.min ex ey) false
    /\ F2R n (Z.min ex ey) = F2R (Zpos mx) ex - F2R (Zpos my) ey.
Proof.
  eexists. split; [reflexivity|]. cbn [cond_Zopp].
  rewrite F2R_sub, !shl_align_fst by lia. reflexivity.
Qed.

Lemma abs_sub_le_bound (mx : positive) (ex : Z) (my : positive) (ey : Z)
    (mB : positive) (eB : Z) :
  canonical_pos (S754_finite false mB eB) ->
  Rabs (F2R (Zpos mx) ex - F2R (Zpos my) ey) <= F2R (Zpos mB) eB ->
  canonical_pos (SFabs (sub (S754_finite false mx ex) (S754_finite false my ey)))
  /\ B2R (SFabs (sub (S754_finite false mx ex) (S754_finite false my ey)))
     <= F2R (Zpos mB) eB.
Proof.
  intros HB HX. destruct (sub_value mx ex my ey) as (n & -> & En).
  rewrite <- En in HX. pose proof (F2R_pos mB eB) as HpB.
  destruct n as [|p|p]; cbn [binary_normalize].
  - simpl. split; [exact I|lra].
  - rewrite SFabs_binary_round. apply binary_round_le; [exact HB|].
    rewrite Rabs_pos_eq in HX; [exact HX|]. apply Rlt_le, F2R_pos.
  - rewrite SFabs_binary_round. apply binary_round_le; [exact HB|].
    rewrite F2R_neg, Rabs_Ropp, Rabs_pos_eq in HX; [exact HX|].
    apply Rlt_le, F2R_pos.
Qed.

Lemma sub_le_bound (mx : positive) (ex : Z) (my : positive) (ey : Z)
    (mB : positive) (eB : Z) :
  canonical_pos (S754_finite false mB eB) ->
  0 <= F2R (Zpos mx) ex - F2R (Zpos my) ey <= F2R (Zpos mB) eB ->
  canonical_pos (sub (S754_finite false mx ex) (S754_finite false my ey))
  /\ B2R (sub (S754_finite false mx ex) (S754_finite false my ey))
     <= F2R (Zpos mB) eB.
Proof.
  intros HB [H0 HX]. destruct (sub_value mx ex my ey) as (n & -> & En).
  rewrite <- En in H0, HX. pose proof (F2R_pos mB eB) as HpB.
  destruct n as [|p|p]; cbn [binary_normalize].
  - simpl. split; [exact I|lra].
  - apply binary_round_le; [exact HB|exact HX].
  - exfalso. rewrite F2R_neg in H0. pose proof (F2R_pos p (Z.min ex ey)). lra.
Qed.

End Operations.

(** *** Line 111, operation by operation *)

Section Line111.

Local Open Scope R_scope.

Lemma F2R_180 : F2R 6333186975989760 (-45) = 180.
Proof.
  change 6333186975989760%Z with (180 * 2 ^ 45)%Z.
  change (-45)%Z with (0 - 45)%Z. rewrite F2R_shift by lia.
  unfold F2R. rewrite bpow_0. lra.
Qed.

Lemma F2R_90 : F2R 6333186975989760 (-46) = 90.
Proof.
  change 6333186975989760%Z with (90 * 2 ^ 46)%Z.
  change (-46)%Z with (0 - 46)%Z. rewrite F2R_shift by lia.
  unfold F2R. rewrite bpow_0. lra.
Qed.

Lemma bpow_m51 : bpow (-51) = 2 * bpow (-52).
Proof. exact (bpow_pred (-51)). Qed.

Lemma bpow_m44 : bpow (-44) = 256 * bpow (-52).
Proof.
  change (-44)%Z with (8 + -52)%Z. rewrite bpow_add, (bpow_IZR 8) by lia.
  reflexivity.
Qed.

Lemma bpow_m43 : bpow (-43) = 512 * bpow (-52).
Proof.
  change (-43)%Z with (9 + -52)%Z. rewrite bpow_add, (bpow_IZR 9) by lia.
  reflexivity.
Qed.

Lemma leb_cases (x y : float) :
  leb x y = true -> SFcompare x y = Some Lt \/ SFcompare x y = Some Eq.
Proof.
  unfold leb, SFleb. destruct (SFcompare x y) as [[| |]|]; try discriminate;
    auto.
Qed.

(** [arccos(z)*180]: below [np.pi*180] rounded. *)
Lemma angle_times_180 (ma : positive) (ea : Z) :
  canonical_pos (S754_finite false ma ea) ->
  leb (S754_finite false ma ea) np_pi = true ->
  canonical_pos (mul (S754_finite false ma ea)
                     (S754_finite false 6333186975989760 (-45)))
  /\ B2R (mul (S754_finite false ma ea)
              (S754_finite false 6333186975989760 (-45)))
     <= F2R 4974073419394997 (-43).
Proof.
  intros (_ & Hma & _) Hle.
  assert (HM : canonical_pos (S754_finite false 4974073419394997 (-43)))
    by (simpl; lia).
  destruct (leb_cases _ _ Hle) as [C|C].
  - apply mul_le_bound; [lia|exact HM|].
    apply lt_gap in C; [|exact Hma|lia].
    rewrite F2R_180. change (-51 - 1)%Z with (-52)%Z in C.
    unfold F2R in C |- *. rewrite bpow_m51 in C. rewrite bpow_m43.
    set (A := IZR (Zpos ma) * bpow ea) in *.
    pose proof (bpow_gt_0 (-52)). set (u := bpow (-52)) in *. lra.
  - apply compare_Eq_eq in C. rewrite C.
    replace (mul np_pi (S754_finite false 6333186975989760 (-45)))
      with (S754_finite false 4974073419394997 (-43))
      by (vm_compute; reflexivity).
    split; [exact HM|]. apply Rle_refl.
Qed.

(** [.../np.pi]: at most 180. *)
Lemma angle_in_degrees (m : float) :
  canonical_pos m -> B2R m <= F2R 4974073419394997 (-43) ->
  canonical_pos (div m np_pi) /\ B2R (div m np_pi) <= 180.
Proof.
  intros Hm Hle.
  assert (HM : canonical_pos (S754_finite false 4974073419394997 (-43)))
    by (simpl; lia).
  assert (H180 : canonical_pos (S754_finite false 6333186975989760 (-45)))
    by (simpl; lia).
  destruct m as [[|]|[|]| |[|] mm em]; simpl in Hm; try contradiction.
  - simpl. split; [exact I|lra].
  - pose proof (leb_of_Rle (S754_finite false mm em)
                  (S754_finite false 4974073419394997 (-43)) Hm HM Hle)
      as Hleb.
    rewrite <- F2R_180.
    destruct (leb_cases _ _ Hleb) as [C|C].
    + apply div_le_bound; [exact H180|].
      apply lt_gap in C; [|lia|lia].
      rewrite F2R_180. change (-43 - 1)%Z with (-44)%Z in C.
      unfold F2R in C |- *. rewrite bpow_m43, bpow_m44 in C.
      rewrite bpow_m51. set (A := IZR (Zpos mm) * bpow em) in *.
      pose proof (bpow_gt_0 (-52)). set (u := bpow (-52)) in *. lra.
    + apply compare_Eq_eq in C. rewrite C.
      replace (div (S754_finite false 4974073419394997 (-43)) np_pi)
        with (S754_finite false 6333186975989760 (-45))
        by (vm_compute; reflexivity).
      split; [exact H180|]. apply Rle_refl.
Qed.

(** [|... - 90|]: at most 90. *)
Lemma angle_off_horizontal (d : float) :
  canonical_pos d -> B2R d <= 180 ->
  canonical_pos (SFabs (sub d (S754_finite false 6333186975989760 (-46))))
  /\ B2R (SFabs (sub d (S754_finite false 6333186975989760 (-46)))) <= 90.
Proof.
  intros Hd Hle.
  assert (H90 : canonical_pos (S754_finite false 6333186975989760 (-46)))
    by (simpl; lia).
  destruct d as [[|]|[|]| |[|] md ed]; simpl in Hd; try contradiction.
  - simpl. split; [lia|]. rewrite F2R_90. lra.
  - rewrite <- F2R_90. apply abs_sub_le_bound; [exact H90|].
    rewrite F2R_90. simpl in Hle. pose proof (F2R_pos md ed).
    apply Rabs_le. lra.
Qed.

(** [90 - ...]: between 0 and 90. *)
Lemma angle_folded (t : float) :
  canonical_pos t -> B2R t <= 90 ->
  leb (S754_zero false) (sub (S754_finite false 6333186975989760 (-46)) t)
  = true
  /\ leb (sub (S754_finite false 6333186975989760 (-46)) t)
         (S754_finite false 6333186975989760 (-46)) = true.
Proof.
  intros Ht Hle.
  assert (H90 : canonical_pos (S754_finite false 6333186975989760 (-46)))
    by (simpl; lia).
  destruct t as [[|]|[|]| |[|] mt et]; simpl in Ht; try contradiction.
  - vm_compute. split; reflexivity.
  - destruct (sub_le_bound 6333186975989760 (-46) mt et
                6333186975989760 (-46) H90) as [Hc Hv].
    { rewrite F2R_90. simpl in Hle. pose proof (F2R_pos mt et). lra. }
    split.
    + destruct (sub _ _) as [[|]|[|]| |[|] mv ev]; simpl in Hc;
        try contradiction; reflexivity.
    + apply leb_of_Rle; [exact Hc|exact H90|exact Hv].
Qed.

Lemma canonical_pos_leb_zero (x : float) :
  canonical_pos x -> leb (S754_zero false) x = true.
Proof.
  destruct x as [[|]|[|]| |[|] m e]; simpl; intros H; try contradiction;
    reflexivity.
Qed.

(** The angle in degrees, [np.arccos(z)*180/np.pi], for an angle from 0
    to [np.pi]. *)
Lemma raw_angle_range (arccos : float -> float) (z : float) :
  valid_binary prec emax (arccos z) = true ->
  leb f0 (arccos z) = true -> leb (arccos z) np_pi = true ->
  leb f0 (div (mul (arccos z) (of_int 180)) np_pi) = true
  /\ leb (div (mul (arccos z) (of_int 180)) np_pi) (of_int 180) = true.
Proof.
  generalize (arccos z). intros a Hv H0 Hpi.
  replace (of_int 180) with (S754_finite false 6333186975989760 (-45))
    by (vm_compute; reflexivity).
  change f0 with (S754_zero false) in *.
  destruct a as [s|s| |s ma ea].
  - destruct s; vm_compute; split; reflexivity.
  - destruct s; discriminate.
  - discriminate.
  - destruct s; [discriminate|].
    pose proof (valid_binary_canonical_pos ma ea Hv) as Hcan.
    destruct (angle_times_180 ma ea Hcan Hpi) as [Hm1 Hm2].
    destruct (angle_in_degrees _ Hm1 Hm2) as [Hd1 Hd2].
    split; [apply canonical_pos_leb_zero, Hd1|].
    apply leb_of_Rle; [exact Hd1|simpl; lia|].
    rewrite <- F2R_180 in Hd2. exact Hd2.
Qed.

(** Line 111 for an angle from 0 to [np.pi]. *)
Lemma vert_float64_range (arccos : float -> float) (z : float) :
  valid_binary prec emax (arccos z) = true ->
  leb f0 (arccos z) = true -> leb (arccos z) np_pi = true ->
  leb f0 (vert_float64 arccos z) = true
  /\ leb (vert_float64 arccos z) (of_int 90) = true.
Proof.
  unfold vert_float64. generalize (arccos z). intros a Hv H0 Hpi.
  replace (of_int 180) with (S754_finite false 6333186975989760 (-45))
    by (vm_compute; reflexivity).
  replace (of_int 90) with (S754_finite false 6333186975989760 (-46))
    by (vm_compute; reflexivity).
  change f0 with (S754_zero false) in *.
  destruct a as [s|s| |s ma ea].
  - destruct s; vm_compute; split; reflexivity.
  - destruct s; discriminate.
  - discriminate.
  - destruct s; [discriminate|].
    pose proof (valid_binary_canonical_pos ma ea Hv) as Hcan.
    destruct (angle_times_180 ma ea Hcan Hpi) as [Hm1 Hm2].
    destruct (angle_in_degrees _ Hm1 Hm2) as [Hd1 Hd2].
    destruct (angle_off_horizontal _ Hd1 Hd2) as [Ht1 Ht2].
    exact (angle_folded _ Ht1 Ht2).
Qed.

End Line111.

(** C7. For a normal whose z component lies in [-1, 1], what
    [surface_verticality] writes under "verticality" is line 111,
    [90-np.abs(np.arccos(z)*180/np.pi-90)], computed in float64 on that
    component: the angle in degrees [np.arccos(z)*180/np.pi] lies between
    0 and 180, and the verticality between 0 and 90; at z = 1 and at
    z = -1 the verticality is 0, and at z = 0 it is 90.  [np.arccos] is
    taken by its contract. *)
Theorem verticality_range (arccos : float -> float) (g : Graph)
    (n_v : list vec3) :
  arccos_spec arccos ->
  get_vectors g "n_v" = Ok n_v -> length n_v = num_vertices g ->
  (exists gv : Graph,
      surface_verticality arccos g = Ok gv
      /\ vertex_properties gv !! "verticality"
         = Some (PFloat (map (vert_float64 arccos) (map vz n_v))))
  /\ (forall z : float,
        leb (neg f1) z = true -> leb z f1 = true ->
        let raw_angle := div (mul (arccos z) (of_int 180)) np_pi in
        vert_float64 arccos z
        = sub (of_int 90) (SFabs (sub raw_angle (of_int 90)))
        /\ leb f0 raw_angle = true /\ leb raw_angle (of_int 180) = true
        /\ leb f0 (vert_float64 arccos z) = true
        /\ leb (vert_float64 arccos z) (of_int 90) = true)
  /\ vert_float64 arccos f1 = f0
  /\ vert_float64 arccos (neg f1) = f0
  /\ vert_float64 arccos f0 = of_int 90.
Proof.
  intros [Hunit H1 Hm1 H0] Hn Hl.
  split; [|split; [|split; [|split]]].
  - unfold surface_verticality, set_array. rewrite Hn. cbn [bind].
    rewrite !length_map, Hl, Nat.eqb_refl. cbn [bind].
    eexists. split; [reflexivity|]. unfold set_property.
    cbn [vertex_properties]. apply lookup_insert_eq.
  - intros z Hlo Hhi. destruct (Hunit z Hlo Hhi) as (Hv & Ha0 & Hapi).
    cbv zeta. split; [reflexivity|].
    destruct (raw_angle_range arccos z Hv Ha0 Hapi) as [Hr0 Hr180].
    destruct (vert_float64_range arccos z Hv Ha0 Hapi) as [Hv0 Hv90].
    repeat split; assumption.
  - unfold vert_float64. rewrite H1. vm_compute. reflexivity.
  - unfold vert_float64. rewrite Hm1. vm_compute. reflexivity.
  - unfold vert_float64. rewrite H0. vm_compute. reflexivity.
Qed.

Lemma verticality_range_one_vertex :
  (exists gv : Graph,
      surface_verticality arccos_steps one_vertex = Ok gv
      /\ vertex_properties gv !! "verticality"
         = Some (PFloat (map (vert_float64 arccos_steps) (map vz [up]))))
  /\ (forall z : float,
        leb (neg f1) z = true -> leb z f1 = true ->
        let raw_angle := div (mul (arccos_steps z) (of_int 180)) np_pi in
        vert_float64 arccos_steps z
        = sub (of_int 90) (SFabs (sub raw_angle (of_int 90)))
        /\ leb f0 raw_angle = true /\ leb raw_angle (of_int 180) = true
        /\ leb f0 (vert_float64 arccos_steps z) = true
        /\ leb (vert_float64 arccos_steps z) (of_int 90) = true)
  /\ vert_float64 arccos_steps f1 = f0
  /\ vert_float64 arccos_steps (neg f1) = f0
  /\ vert_float64 arccos_steps f0 = of_int 90.
Proof.
  apply (verticality_range arccos_steps one_vertex [up]).
  - constructor.
    + intros z Hlo Hhi. unfold arccos_steps. rewrite Hlo, Hhi.
      destruct (SFeqb z f1); [|destruct (SFeqb z (neg f1))];
        vm_compute; repeat split.
    + vm_compute. reflexivity.
    + vm_compute. reflexivity.
    + vm_compute. reflexivity.
  - vm_compute. reflexivity.
  - reflexivity.
Defined.

(** * Further properties *)

(** ** Distances are never negative *)

Lemma add_nan_r (x : float) : add x nan = nan.
Proof. destruct x; reflexivity. Qed.

Lemma isnan_true (x : float) : isnan x = true -> x = nan.
Proof. destruct x; simpl; intros H; try discriminate; reflexivity. Qed.

(** [np.linalg.norm] answers NaN or a number of sign +. *)
Lemma norm_nan_or_sign (v : vec3) :
  isnan (norm v) = true \/ has_sign false (norm v).
Proof.
  destruct (isnan (vx v)) eqn:Hx; [|destruct (isnan (vy v)) eqn:Hy;
    [|destruct (isnan (vz v)) eqn:Hz]].
  - left. unfold norm, dot. rewrite (isnan_true _ Hx). reflexivity.
  - left. unfold norm, dot. rewrite (isnan_true _ Hy).
    change (mul nan nan) with nan. rewrite add_nan_r. reflexivity.
  - left. unfold norm, dot. rewrite (isnan_true _ Hz).
    change (mul nan nan) with nan. rewrite add_nan_r. reflexivity.
  - right. apply norm_sign; assumption.
Qed.

Lemma has_sign_leb_zero (x : float) :
  has_sign false x -> leb (of_int 0) x = true.
Proof. destruct x as [s|s| |s m e]; simpl; intros H; subst; try reflexivity. destruct H. Qed.

Lemma probe_direction_nonneg (point : vec3) (locator : Locator)
    (dist_min dist_max : Z) (tolerance : float) (direction : vec3) :
  let d := fst (probe_direction point locator dist_min dist_max tolerance direction) in
  isnan d = true \/ leb (of_int 0) d = true.
Proof.
  destruct (probe_direction_cases point locator dist_min dist_max tolerance
              direction) as [[-> _]|(-> & _)]; simpl.
  - left. reflexivity.
  - destruct (norm_nan_or_sign
                (vsub (fst (IntersectWithLine locator
                         (vadd point (vscale direction (of_int dist_min)))
                         (vadd point (vscale direction (of_int dist_max)))
                         tolerance)) point)) as [H|H].
    + left. exact H.
    + right. apply has_sign_leb_zero, H.
Qed.

(** X1. Each of the two distances that the query returns is NaN or at
    least 0: no negative distance is ever returned, whatever the locator
    answers. *)
Theorem distances_not_negative (point normal : vec3) (locator : Locator)
    (dist_min dist_max : Z) (tolerance : float)
    (close_distance far_distance : float) (close_id far_id : Z) :
  get_dist_two_directions point normal locator dist_min dist_max tolerance
    = Ok (close_distance, close_id, far_distance, far_id) ->
  (isnan close_distance = true \/ leb (of_int 0) close_distance = true)
  /\ (isnan far_distance = true \/ leb (of_int 0) far_distance = true).
Proof.
  rewrite get_dist_two_directions_canonical.
  pose proof (probe_direction_nonneg point locator dist_min dist_max
                tolerance (vneg normal)) as P0.
  pose proof (probe_direction_nonneg point locator dist_min dist_max
                tolerance normal) as P1.
  unfold canonical_pair.
  destruct (swap_rule _ _); intros E; injection E as <- <- <- <-; split;
    assumption.
Qed.

Lemma distances_not_negative_scenario_C :
  (isnan f10 = true \/ leb (of_int 0) f10 = true)
  /\ (isnan nan = true \/ leb (of_int 0) nan = true).
Proof.
  apply (distances_not_negative origin up two_sheets 1 50 tol_0_1 f10 nan 1 (-1)).
  vm_compute. reflexivity.
Defined.

(** ** The orientation of the normal *)

Lemma neg_involutive (x : float) : neg (neg x) = x.
Proof. destruct x; simpl; rewrite ?negb_involutive; reflexivity. Qed.

Lemma vneg_involutive (v : vec3) : vneg (vneg v) = v.
Proof. destruct v as [x y z]. unfold vneg, vmap. simpl. rewrite !neg_involutive. reflexivity. Qed.

(** X2. Turning the normal round gives the same quadruple, as long as
    the two probes do not answer equal distances (coordinates finite, as
    for the sentinels): which side of the surface the normal points to
    matters only to break a tie. *)
Theorem normal_orientation (point normal : vec3) (locator : Locator)
    (dist_min dist_max : Z) (tolerance : float) (d0 d1 : float) (id0 id1 : Z) :
  vfinite point = true ->
  finite_answer point locator dist_min dist_max tolerance (vneg normal) = true ->
  finite_answer point locator dist_min dist_max tolerance normal = true ->
  probe_direction point locator dist_min dist_max tolerance (vneg normal)
    = (d0, id0) ->
  probe_direction point locator dist_min dist_max tolerance normal
    = (d1, id1) ->
  SFeqb d0 d1 = false ->
  get_dist_two_directions point (vneg normal) locator dist_min dist_max tolerance
  = get_dist_two_directions point normal locator dist_min dist_max tolerance.
Proof.
  intros Hp F0 F1 H0 H1 Hne.
  rewrite !get_dist_two_directions_canonical, vneg_involutive, H0, H1.
  pose proof (probe_direction_sentinel point locator dist_min dist_max
                tolerance (vneg normal) Hp F0) as S0.
  pose proof (probe_direction_sentinel point locator dist_min dist_max
                tolerance normal Hp F1) as S1.
  rewrite H0 in S0. rewrite H1 in S1. simpl in S0, S1.
  unfold canonical_pair, swap_rule. simpl.
  destruct (isnan d0) eqn:N0, (isnan d1) eqn:N1; simpl.
  - rewrite (isnan_true _ N0), (isnan_true _ N1).
    rewrite (proj2 S0 eq_refl), (proj2 S1 eq_refl). reflexivity.
  - reflexivity.
  - reflexivity.
  - unfold gtb, SFltb. rewrite (SFcompare_antisym d0 d1).
    unfold SFeqb in Hne.
    destruct (SFcompare_not_nan d0 d1 N0 N1) as [c Hc]. rewrite Hc in *.
    destruct c; simpl; try reflexivity. discriminate.
Qed.

Lemma normal_orientation_scenario_C :
  get_dist_two_directions origin (vneg up) two_sheets 1 50 tol_0_1
  = get_dist_two_directions origin up two_sheets 1 50 tol_0_1.
Proof.
  apply (normal_orientation origin up two_sheets 1 50 tol_0_1 nan f10 (-1) 1);
    vm_compute; reflexivity.
Defined.

(** ** What a run of surface_self_distances raises and keeps *)

Section LoopOutcome.

Variables (xyz normal : list vec3) (locator : Locator).
Variables (dist_min dist_max : Z).

Local Open Scope nat_scope.

Let body := distances_at xyz normal locator dist_min dist_max.

(** One turn raises only for an index without position or normal. *)
Lemma distances_at_Raise (s : arrays) (i : nat) (e : exn) :
  body s i = Raise e ->
  e = IndexError /\ (xyz !! i = None \/ normal !! i = None).
Proof.
  destruct s as [[[cd ci] fd] fi]. unfold body, distances_at, index.
  destruct (xyz !! i) as [p|]; simpl; [|intros E; injection E as <-; auto].
  destruct (normal !! i) as [n|]; simpl; [|intros E; injection E as <-; auto].
  destruct (ordering_assertion_total p n locator dist_min dist_max tol_0_001)
    as [[[[a b] c] d] ->].
  simpl. discriminate.
Qed.

Lemma for_each_distances_at_Raise (len : nat) :
  forall (a : nat) (s : arrays) (e : exn),
    for_each body (seq a len) s = Raise e ->
    e = IndexError
    /\ exists i, a <= i < a + len /\ (xyz !! i = None \/ normal !! i = None).
Proof.
  induction len as [|len IH]; intros a s e; simpl; [discriminate|].
  destruct (body s a) as [s1|e1] eqn:Eb; simpl.
  - intros E. destruct (IH _ _ _ E) as (-> & i & Hi & Hm).
    split; [reflexivity|]. exists i. split; [lia|exact Hm].
  - intros E. injection E as <-.
    destruct (distances_at_Raise _ _ _ Eb) as (-> & Hm).
    split; [reflexivity|]. exists a. split; [lia|exact Hm].
Qed.

End LoopOutcome.

(** The reasons for which a run raises. *)
Lemma surface_self_distances_Raise (g : Graph) (locator : Locator)
    (dist_min dist_max : Z) (tolerance : float) (e : exn) :
  surface_self_distances g locator dist_min dist_max tolerance = Raise e ->
  (exists name, e = AttributeError name
                /\ (name = "xyz" \/ name = "n_v")
                /\ vertex_properties g !! name = None)
  \/ (e = ValueError
      /\ ((exists name p, (name = "xyz" \/ name = "n_v")
                          /\ vertex_properties g !! name = Some p
                          /\ forall a, p <> PVector a)
          \/ num_vertices g = 0%nat))
  \/ (e = IndexError
      /\ exists xyz normal i,
          get_vectors g "xyz" = Ok xyz /\ get_vectors g "n_v" = Ok normal
          /\ (i < num_vertices g)%nat
          /\ (xyz !! i = None \/ normal !! i = None)).
Proof.
  unfold surface_self_distances, get_vectors.
  destruct (vertex_properties g !! "xyz") as [[a|a|xyz]|] eqn:Ex; simpl.
  1,2: intros E; injection E as <-; right; left; split; [reflexivity|];
       left; eexists "xyz", _; (split; [auto|split; [exact Ex|discriminate]]).
  2: intros E; injection E as <-; left; exists "xyz"; auto.
  destruct (vertex_properties g !! "n_v") as [[a|a|normal]|] eqn:En; simpl.
  1,2: intros E; injection E as <-; right; left; split; [reflexivity|];
       left; eexists "n_v", _; (split; [auto|split; [exact En|discriminate]]).
  2: intros E; injection E as <-; left; exists "n_v"; auto.
  unfold new_float_array at 1. rewrite length_replicate.
  destruct (for_each _ _ _) as [[[[cd ci] fd] fi]|e1] eqn:E; simpl.
  - assert (L : has_length (num_vertices g) (cd, ci, fd, fi)).
    { eapply (for_each_distances_at _ _ _ _ _ (num_vertices g) (num_vertices g) 0%nat);
        [|reflexivity|exact E].
      unfold new_float_array, new_long_array. simpl.
      rewrite !length_replicate. auto. }
    destruct L as (L1 & _ & L3 & _).
    destruct cd as [|c cd]; simpl.
    { intros H; injection H as <-. right; left. split; [reflexivity|].
      right. simpl in L1. congruence. }
    destruct fd as [|f fd]; simpl; [|discriminate].
    intros H; injection H as <-. right; left. split; [reflexivity|].
    right. simpl in L3. congruence.
  - intros H; injection H as <-.
    destruct (for_each_distances_at_Raise _ _ _ _ _ _ _ _ _ E)
      as (-> & i & Hi & Hm).
    right; right. split; [reflexivity|].
    exists xyz, normal, i.
    split; [reflexivity|split; [reflexivity|split; [lia|exact Hm]]].
Qed.

(** X3. A run of [surface_self_distances] that raises does so for one of
    these reasons only: the graph has no "xyz" or no "n_v" property
    (AttributeError); one of the two is not an array of vectors, or the
    graph has no vertex (ValueError); a vertex has no position or no normal
    (IndexError).  The assertion on the order of the two distances never
    stops a run. *)
Theorem self_distances_raises (g : Graph) (locator : Locator)
    (dist_min dist_max : Z) (tolerance : float) (e : exn) :
  surface_self_distances g locator dist_min dist_max tolerance = Raise e ->
  ((exists name, e = AttributeError name
                 /\ (name = "xyz" \/ name = "n_v")
                 /\ vertex_properties g !! name = None)
   \/ (e = ValueError
       /\ ((exists name p, (name = "xyz" \/ name = "n_v")
                           /\ vertex_properties g !! name = Some p
                           /\ forall a, p <> PVector a)
           \/ num_vertices g = 0%nat))
   \/ (e = IndexError
       /\ exists xyz normal i,
           get_vectors g "xyz" = Ok xyz /\ get_vectors g "n_v" = Ok normal
           /\ (i < num_vertices g)%nat
           /\ (xyz !! i = None \/ normal !! i = None)))
  /\ e <> AssertionError.
Proof.
  intros E.
  pose proof (surface_self_distances_Raise _ _ _ _ _ _ E) as H.
  split; [exact H|].
  destruct H as [(name & -> & _)|[(-> & _)|(-> & _)]]; discriminate.
Qed.

Lemma self_distances_raises_no_vertex :
  ((exists name, ValueError = AttributeError name
                /\ (name = "xyz" \/ name = "n_v")
                /\ vertex_properties no_vertex !! name = None)
  \/ (ValueError = ValueError
      /\ ((exists name p, (name = "xyz" \/ name = "n_v")
                          /\ vertex_properties no_vertex !! name = Some p
                          /\ forall a, p <> PVector a)
          \/ num_vertices no_vertex = 0%nat))
  \/ (ValueError = IndexError
      /\ exists xyz normal i,
          get_vectors no_vertex "xyz" = Ok xyz
          /\ get_vectors no_vertex "n_v" = Ok normal
          /\ (i < num_vertices no_vertex)%nat
          /\ (xyz !! i = None \/ normal !! i = None)))
  /\ ValueError <> AssertionError.
Proof.
  apply (self_distances_raises no_vertex two_sheets 1 50 tol_0_1 ValueError).
  vm_compute. reflexivity.
Defined.

(** X4. On a graph with at least one vertex, whose "xyz" and "n_v" arrays
    hold a vector for every vertex, the run returns: it raises nothing,
    and the four arrays it writes have one entry per vertex. *)
Theorem self_distances_returns (g : Graph) (locator : Locator)
    (dist_min dist_max : Z) (tolerance : float) (xyz normal : list vec3) :
  get_vectors g "xyz" = Ok xyz ->
  get_vectors g "n_v" = Ok normal ->
  (num_vertices g <= length xyz)%nat ->
  (num_vertices g <= length normal)%nat ->
  num_vertices g <> 0%nat ->
  exists g1 s,
    surface_self_distances g locator dist_min dist_max tolerance = Ok g1
    /\ self_distances g1 = Some s
    /\ has_length (num_vertices g) s.
Proof.
  intros Hx Hn Lx Ln Hv.
  destruct (surface_self_distances g locator dist_min dist_max tolerance)
    as [g1|e] eqn:E.
  - destruct (surface_self_distances_Ok _ _ _ _ _ _ E)
      as (xyz' & normal' & s & _ & _ & El & _ & ->).
    exists (write_distances s g), s.
    split; [reflexivity|split; [apply self_distances_write_distances|]].
    eapply (for_each_distances_at _ _ _ _ _ (num_vertices g) (num_vertices g) 0%nat);
      [|reflexivity|exact El].
    unfold new_float_array, new_long_array. simpl.
    rewrite !length_replicate. auto.
  - exfalso.
    destruct (surface_self_distances_Raise g locator dist_min dist_max tolerance e E)
      as [(name & _ & [->| ->] & Hm)|[(_ & [(name & p & [->| ->] & Hp & Hv')|H0])
          |(_ & xyz' & normal' & i & Hx' & Hn' & Hi & Hm)]].
    + unfold get_vectors in Hx. rewrite Hm in Hx. discriminate.
    + unfold get_vectors in Hn. rewrite Hm in Hn. discriminate.
    + unfold get_vectors in Hx. rewrite Hp in Hx.
      destruct p; try discriminate. apply (Hv' a). reflexivity.
    + unfold get_vectors in Hn. rewrite Hp in Hn.
      destruct p; try discriminate. apply (Hv' a). reflexivity.
    + contradiction.
    + rewrite Hx in Hx'. rewrite Hn in Hn'.
      injection Hx' as <-. injection Hn' as <-.
      destruct Hm as [Hm|Hm]; apply lookup_ge_None in Hm; lia.
Qed.

Lemma self_distances_returns_one_vertex :
  exists g1 s,
    surface_self_distances one_vertex two_sheets 1 50 tol_0_1 = Ok g1
    /\ self_distances g1 = Some s
    /\ has_length (num_vertices one_vertex) s.
Proof.
  apply (self_distances_returns one_vertex two_sheets 1 50 tol_0_1 [origin] [up]);
    try reflexivity; vm_compute; lia.
Defined.

(** X5. A run that returns leaves the number of vertices and every
    property but the four it writes as they were: among others the
    positions, the normals and the verticality. *)
Theorem self_distances_frame (g g1 : Graph) (locator : Locator)
    (dist_min dist_max : Z) (tolerance : float) :
  surface_self_distances g locator dist_min dist_max tolerance = Ok g1 ->
  num_vertices g1 = num_vertices g
  /\ forall name : string,
      name <> "self_dist_min" -> name <> "self_id_min" ->
      name <> "self_dist_far" -> name <> "self_id_far" ->
      vertex_properties g1 !! name = vertex_properties g !! name.
Proof.
  intros E.
  destruct (surface_self_distances_Ok _ _ _ _ _ _ E)
    as (xyz & normal & [[[cd ci] fd] fi] & _ & _ & _ & _ & ->).
  split; [reflexivity|].
  intros name H1 H2 H3 H4. simpl.
  rewrite !lookup_insert_ne by congruence. reflexivity.
Qed.

Lemma self_distances_frame_one_vertex :
  num_vertices one_vertex_measured = num_vertices one_vertex
  /\ forall name : string,
      name <> "self_dist_min" -> name <> "self_id_min" ->
      name <> "self_dist_far" -> name <> "self_id_far" ->
      vertex_properties one_vertex_measured !! name
      = vertex_properties one_vertex !! name.
Proof.
  apply (self_distances_frame one_vertex one_vertex_measured two_sheets 1 50 tol_0_1).
  vm_compute. reflexivity.
Defined.

(** ** The table of export_csv *)

Lemma app_string_inj (s a b : string) : s +:+ a = s +:+ b -> a = b.
Proof.
  induction s as [|c s IH]; simpl; intros H; [exact H|].
  injection H as H. apply IH, H.
Qed.

Lemma drop_last_2 (v suffix : string) :
  String.length suffix = 2%nat -> drop_last 2 (v +:+ suffix) = v.
Proof. intros H. rewrite <- H. apply drop_last_suffix. Qed.

Section ExportCsv.

Variable tg : Graph.

Let m := vertex_properties tg.

(** Lines 32-37 sort the keys: the vector ones are those of the arrays of
    vectors, the scalar ones all the others. *)
Lemma classify_elem (l : list (string * property_map)) :
  forall S0 V0 S V,
    fold_left classify l (S0, V0) = (S, V) ->
    (forall s, s ∈ S <-> s ∈ S0 \/ exists p, (s, p) ∈ l /\ is_vector p = false)
    /\ (forall v, v ∈ V <-> v ∈ V0 \/ exists p, (v, p) ∈ l /\ is_vector p = true).
Proof.
  induction l as [|[k p] l IH]; intros S0 V0 S V; cbn [fold_left].
  - intros E. injection E as <- <-. split; intros x; split; auto;
      intros [H|(p & H & _)]; [exact H|inversion H|exact H|inversion H].
  - assert (Hc : classify (S0, V0) (k, p)
                 = if is_vector p then (S0, V0 ++ [k]) else (S0 ++ [k], V0))
      by (destruct p; reflexivity).
    rewrite Hc. clear Hc.
    destruct (is_vector p) eqn:Ep; intros E;
      destruct (IH _ _ _ _ E) as [HS HV]; split; intros x;
      rewrite ?HS, ?HV, ?elem_of_app, ?list_elem_of_singleton; split.
    + intros [H|(q & H & Hq)]; [auto|]. right. exists q. split; [right; exact H|exact Hq].
    + intros [H|(q & H & Hq)]; [auto|]. apply elem_of_cons in H as [H|H].
      * injection H as -> ->. congruence.
      * right. eauto.
    + intros [[H| ->]|(q & H & Hq)]; [auto| |].
      * right. exists p. split; [left|exact Ep].
      * right. exists q. split; [right; exact H|exact Hq].
    + intros [H|(q & H & Hq)]; [auto|]. apply elem_of_cons in H as [H|H].
      * injection H as -> ->. auto.
      * right. eauto.
    + intros [[H| ->]|(q & H & Hq)]; [auto| |].
      * right. exists p. split; [left|exact Ep].
      * right. exists q. split; [right; exact H|exact Hq].
    + intros [H|(q & H & Hq)]; [auto|]. apply elem_of_cons in H as [H|H].
      * injection H as -> ->. auto.
      * right. eauto.
    + intros [H|(q & H & Hq)]; [auto|]. right. exists q. split; [right; exact H|exact Hq].
    + intros [H|(q & H & Hq)]; [auto|]. apply elem_of_cons in H as [H|H].
      * injection H as -> ->. congruence.
      * right. eauto.
Qed.

Lemma for_each_add_scalar (l : list string) :
  forall df : gmap string column,
    (forall s, s ∈ l -> exists c, get_vertex_property_array tg s = Ok c) ->
    exists df',
      for_each (add_scalar tg) l df = Ok df'
      /\ forall k, df' !! k
                   = if decide (k ∈ l)
                     then match get_vertex_property_array tg k with
                          | Ok c => Some c
                          | Raise _ => None
                          end
                     else df !! k.
Proof.
  induction l as [|s l IH]; intros df Hl; simpl.
  - exists df. split; [reflexivity|]. intros k.
    destruct (decide (k ∈ [])) as [H|_]; [inversion H|reflexivity].
  - destruct (Hl s ltac:(left)) as [c Hc].
    unfold add_scalar at 1. rewrite Hc. simpl.
    destruct (IH (<[s := c]> df)) as (df' & E & Hk).
    { intros x Hx. apply Hl. right. exact Hx. }
    exists df'. split; [exact E|]. intros k. rewrite Hk.
    destruct (decide (k ∈ l)) as [Hin|Hin].
    + rewrite decide_True by (right; exact Hin). reflexivity.
    + destruct (decide (k = s)) as [->|Hne].
      * rewrite decide_True by left. rewrite lookup_insert_eq, Hc. reflexivity.
      * rewrite decide_False, lookup_insert_ne; [reflexivity|congruence|].
        intros H. apply elem_of_cons in H as [H|H]; congruence.
Qed.

(** A name is that of a component of [v] only if [v] is the name without
    its last two characters. *)
Lemma component_names (v k : string) :
  k = v +:+ "_x" \/ k = v +:+ "_y" \/ k = v +:+ "_z" -> drop_last 2 k = v.
Proof. intros [->|[->| ->]]; apply drop_last_2; reflexivity. Qed.

Lemma component_column_Some (k : string) (c : column) :
  component_column tg k = Some c ->
  exists v a,
    m !! v = Some (PVector a)
    /\ ((k = v +:+ "_x" /\ c = FloatColumn (map vx a))
        \/ (k = v +:+ "_y" /\ c = FloatColumn (map vy a))
        \/ (k = v +:+ "_z" /\ c = FloatColumn (map vz a))).
Proof.
  unfold component_column. fold m.
  destruct (m !! drop_last 2 k) as [[a|a|a]|] eqn:E; try discriminate.
  repeat case_decide; try discriminate; intros Hc; injection Hc as <-;
    exists (drop_last 2 k), a; auto.
Qed.

Lemma component_column_x (v : string) (a : list vec3) :
  m !! v = Some (PVector a) ->
  component_column tg (v +:+ "_x") = Some (FloatColumn (map vx a))
  /\ component_column tg (v +:+ "_y") = Some (FloatColumn (map vy a))
  /\ component_column tg (v +:+ "_z") = Some (FloatColumn (map vz a)).
Proof.
  intros Hm. unfold component_column. fold m.
  rewrite !drop_last_2, Hm by reflexivity.
  repeat split; repeat case_decide; try reflexivity; try congruence;
    match goal with E : _ +:+ _ = _ +:+ _ |- _ =>
      apply app_string_inj in E; discriminate end.
Qed.

Lemma for_each_add_vector (l : list string) :
  forall df : gmap string column,
    (forall v, v ∈ l -> exists a, m !! v = Some (PVector a)) ->
    exists df',
      for_each (add_vector tg) l df = Ok df'
      /\ forall k, df' !! k
                   = if decide (drop_last 2 k ∈ l)
                     then match component_column tg k with
                          | Some c => Some c
                          | None => df !! k
                          end
                     else df !! k.
Proof.
  induction l as [|v l IH]; intros df Hl; simpl.
  - exists df. split; [reflexivity|]. intros k.
    destruct (decide (drop_last 2 k ∈ [])) as [H|_]; [inversion H|reflexivity].
  - destruct (Hl v ltac:(left)) as [a Ha].
    unfold add_vector at 1, get_2d_array, get_vectors. fold m. rewrite Ha. simpl.
    destruct (IH (<[v +:+ "_z" := FloatColumn (map vz a)]>
                   (<[v +:+ "_y" := FloatColumn (map vy a)]>
                      (<[v +:+ "_x" := FloatColumn (map vx a)]> df))))
      as (df' & E & Hk).
    { intros x Hx. apply Hl. right. exact Hx. }
    exists df'. split; [exact E|]. intros k. rewrite Hk.
    destruct (component_column_x v a Ha) as (Cx & Cy & Cz).
    assert (Hv : forall k', (k' = v +:+ "_x" \/ k' = v +:+ "_y" \/ k' = v +:+ "_z")
                   \/ (<[v +:+ "_z" := FloatColumn (map vz a)]>
                        (<[v +:+ "_y" := FloatColumn (map vy a)]>
                          (<[v +:+ "_x" := FloatColumn (map vx a)]> df))) !! k'
                      = df !! k').
    { intros k'.
      destruct (decide (k' = v +:+ "_x")) as [?|N1]; [auto|].
      destruct (decide (k' = v +:+ "_y")) as [?|N2]; [auto|].
      destruct (decide (k' = v +:+ "_z")) as [?|N3]; [auto|].
      right. rewrite !lookup_insert_ne by congruence. reflexivity. }
    assert (Hin : forall k', k' = v +:+ "_x" \/ k' = v +:+ "_y" \/ k' = v +:+ "_z" ->
                    (<[v +:+ "_z" := FloatColumn (map vz a)]>
                        (<[v +:+ "_y" := FloatColumn (map vy a)]>
                          (<[v +:+ "_x" := FloatColumn (map vx a)]> df))) !! k'
                    = component_column tg k').
    { intros k' [->|[->| ->]]; rewrite ?Cx, ?Cy, ?Cz, !lookup_insert;
        repeat case_decide; try reflexivity; try congruence;
        match goal with E : _ +:+ _ = _ +:+ _ |- _ =>
          apply app_string_inj in E; discriminate end. }
    destruct (decide (k = v +:+ "_x" \/ k = v +:+ "_y" \/ k = v +:+ "_z"))
      as [Hc|Hc].
    + pose proof (component_names v k Hc) as Hs.
      rewrite (decide_True (P := drop_last 2 k ∈ v :: l)) by (rewrite Hs; left).
      rewrite (Hin k Hc).
      destruct (component_column tg k) as [c|] eqn:Ec.
      * destruct (decide (drop_last 2 k ∈ l)); reflexivity.
      * exfalso. destruct Hc as [->|[->| ->]]; congruence.
    + destruct (Hv k) as [H|Hpass]; [contradiction|]. rewrite Hpass.
      destruct (decide (drop_last 2 k ∈ l)) as [Hl'|Hl'].
      * rewrite decide_True by (right; exact Hl'). reflexivity.
      * destruct (decide (drop_last 2 k ∈ v :: l)) as [Hvl|Hvl]; [|reflexivity].
        destruct (component_column tg k) as [c|] eqn:Ec; [|reflexivity].
        exfalso. apply elem_of_cons in Hvl as [Hvl|Hvl]; [|contradiction].
        destruct (component_column_Some k c Ec) as (v' & a' & _ & Hkc).
        assert (Hk' : k = v' +:+ "_x" \/ k = v' +:+ "_y" \/ k = v' +:+ "_z")
          by (destruct Hkc as [[-> _]|[[-> _]|[-> _]]]; auto).
        pose proof (component_names v' k Hk') as Hs. rewrite Hvl in Hs.
        subst v'. contradiction.
Qed.

End ExportCsv.

(** The frame of [export_csv], name by name: the component of a vector
    property if the name is one, else the array of the scalar property of
    that name. *)
Lemma export_csv_lookup (tg : Graph) :
  well_formed tg -> num_vertices tg <> 0%nat ->
  exists df,
    export_csv tg = Ok df
    /\ forall k, df !! k = match component_column tg k with
                           | Some c => Some c
                           | None => scalar_column tg k
                           end.
Proof.
  intros Hwf Hn. unfold export_csv.
  destruct (fold_left classify _ _) as [S V] eqn:Ec.
  destruct (classify_elem _ _ _ _ _ Ec) as [HS HV].
  assert (HS' : forall s, s ∈ S <-> exists p, vertex_properties tg !! s = Some p
                                             /\ is_vector p = false).
  { intros s. rewrite HS. split.
    - intros [H|(p & H & Hp)]; [inversion H|].
      exists p. split; [apply elem_of_map_to_list, H|exact Hp].
    - intros (p & H & Hp). right. exists p.
      split; [apply elem_of_map_to_list, H|exact Hp]. }
  assert (HV' : forall v, v ∈ V <-> exists a, vertex_properties tg !! v = Some (PVector a)).
  { intros v. rewrite HV. split.
    - intros [H|(p & H & Hp)]; [inversion H|].
      destruct p as [a|a|a]; try discriminate.
      exists a. apply elem_of_map_to_list, H.
    - intros (a & H). right. exists (PVector a).
      split; [apply elem_of_map_to_list, H|reflexivity]. }
  assert (Hsc : forall s, s ∈ S ->
                  exists c, get_vertex_property_array tg s = Ok c
                            /\ scalar_column tg s = Some c).
  { intros s Hs. apply HS' in Hs as (p & Hp & Hv).
    pose proof (Hwf s p Hp) as Hlen. simpl in Hlen.
    unfold get_vertex_property_array, scalar_column. rewrite Hp.
    destruct p as [[|x a]|[|x a]|a]; simpl in Hlen; try discriminate;
      try congruence; eauto. }
  destruct (for_each_add_scalar tg S ∅) as (df1 & E1 & H1).
  { intros s Hs. destruct (Hsc s Hs) as (c & Hc & _). eauto. }
  rewrite E1. simpl.
  destruct (for_each_add_vector tg V df1) as (df & E2 & H2).
  { intros v Hv. apply HV', Hv. }
  exists df. split; [exact E2|]. intros k.
  assert (Hk1 : df1 !! k = scalar_column tg k).
  { rewrite H1. destruct (decide (k ∈ S)) as [Hs|Hs].
    - destruct (Hsc k Hs) as (c & -> & ->). reflexivity.
    - rewrite lookup_empty. unfold scalar_column.
      destruct (vertex_properties tg !! k) as [p|] eqn:Hp; [|reflexivity].
      destruct p as [a|a|a]; try reflexivity;
        exfalso; apply Hs, HS'; eexists; (split; [exact Hp|reflexivity]). }
  rewrite H2, Hk1.
  destruct (decide (drop_last 2 k ∈ V)) as [Hv|Hv]; [reflexivity|].
  unfold component_column.
  destruct (vertex_properties tg !! drop_last 2 k) as [[a|a|a]|] eqn:Hp;
    try reflexivity.
  exfalso. apply Hv, HV'. eauto.
Qed.

(** X6. On a graph with at least one vertex and one entry per vertex in
    every property, [export_csv] builds a frame in which every vector
    property [v] has the three columns [v_x], [v_y], [v_z] of its
    components, and every "float" or "long" property has a column under
    its own name, unless that name is the name of a component of a
    vector property: then the component takes the column. *)
Theorem export_csv_columns (tg : Graph) :
  well_formed tg -> num_vertices tg <> 0%nat ->
  exists df,
    export_csv tg = Ok df
    /\ (forall v a,
           vertex_properties tg !! v = Some (PVector a) ->
           df !! (v +:+ "_x") = Some (FloatColumn (map vx a))
           /\ df !! (v +:+ "_y") = Some (FloatColumn (map vy a))
           /\ df !! (v +:+ "_z") = Some (FloatColumn (map vz a)))
    /\ (forall s,
           (forall v a, vertex_properties tg !! v = Some (PVector a) ->
                        s <> v +:+ "_x" /\ s <> v +:+ "_y" /\ s <> v +:+ "_z") ->
           (forall a, vertex_properties tg !! s = Some (PFloat a) ->
                      df !! s = Some (FloatColumn a))
           /\ (forall a, vertex_properties tg !! s = Some (PLong a) ->
                         df !! s = Some (LongColumn a))).
Proof.
  intros Hwf Hn. destruct (export_csv_lookup tg Hwf Hn) as (df & E & Hk).
  exists df. split; [exact E|split].
  - intros v a Hv. destruct (component_column_x tg v a Hv) as (Cx & Cy & Cz).
    rewrite !Hk, Cx, Cy, Cz. auto.
  - intros s Hs.
    assert (Hc : component_column tg s = None).
    { destruct (component_column tg s) as [c|] eqn:Ec; [|reflexivity].
      exfalso. destruct (component_column_Some tg s c Ec) as (v & a & Hv & Hsv).
      destruct (Hs v a Hv) as (N1 & N2 & N3).
      destruct Hsv as [[? _]|[[? _]|[? _]]]; contradiction. }
    split; intros a Ha; rewrite Hk, Hc; unfold scalar_column; rewrite Ha;
      reflexivity.
Qed.

Lemma one_vertex_measured_well_formed : well_formed one_vertex_measured.
Proof.
  apply map_Forall_to_list. vm_compute. repeat constructor.
Qed.

Lemma export_csv_columns_one_vertex :
  exists df,
    export_csv one_vertex_measured = Ok df
    /\ (forall v a,
           vertex_properties one_vertex_measured !! v = Some (PVector a) ->
           df !! (v +:+ "_x") = Some (FloatColumn (map vx a))
           /\ df !! (v +:+ "_y") = Some (FloatColumn (map vy a))
           /\ df !! (v +:+ "_z") = Some (FloatColumn (map vz a)))
    /\ (forall s,
           (forall v a,
               vertex_properties one_vertex_measured !! v = Some (PVector a) ->
               s <> v +:+ "_x" /\ s <> v +:+ "_y" /\ s <> v +:+ "_z") ->
           (forall a, vertex_properties one_vertex_measured !! s = Some (PFloat a) ->
                      df !! s = Some (FloatColumn a))
           /\ (forall a, vertex_properties one_vertex_measured !! s = Some (PLong a) ->
                         df !! s = Some (LongColumn a))).
Proof.
  apply (export_csv_columns one_vertex_measured).
  - exact one_vertex_measured_well_formed.
  - vm_compute. lia.
Defined.

(** The component wins over a scalar property of the same name. *)
Example export_csv_shadowed :
  match export_csv shadowed with
  | Ok df => df !! "xyz_x"
  | Raise _ => None
  end = Some (FloatColumn [f0]).
Proof. vm_compute. reflexivity. Qed.

(** X7. Such a frame has no other column: each one holds a component of
    a vector property or the array of a scalar property, and has one row
    per vertex. *)
Theorem export_csv_only (tg : Graph) (df : gmap string column)
    (k : string) (c : column) :
  well_formed tg -> num_vertices tg <> 0%nat ->
  export_csv tg = Ok df ->
  df !! k = Some c ->
  column_length c = num_vertices tg
  /\ ((exists v a,
          vertex_properties tg !! v = Some (PVector a)
          /\ ((k = v +:+ "_x" /\ c = FloatColumn (map vx a))
              \/ (k = v +:+ "_y" /\ c = FloatColumn (map vy a))
              \/ (k = v +:+ "_z" /\ c = FloatColumn (map vz a))))
      \/ (exists a, vertex_properties tg !! k = Some (PFloat a)
                    /\ c = FloatColumn a)
      \/ (exists a, vertex_properties tg !! k = Some (PLong a)
                    /\ c = LongColumn a)).
Proof.
  intros Hwf Hn E Hc.
  destruct (export_csv_lookup tg Hwf Hn) as (df' & E' & Hk).
  rewrite E in E'. injection E' as <-. rewrite Hk in Hc.
  destruct (component_column tg k) as [c'|] eqn:Ec.
  - injection Hc as <-.
    destruct (component_column_Some tg k c' Ec) as (v & a & Hv & Hkc).
    pose proof (Hwf v _ Hv) as Hlen. simpl in Hlen. split.
    + destruct Hkc as [[_ ->]|[[_ ->]|[_ ->]]]; simpl;
        rewrite length_map; exact Hlen.
    + left. eauto.
  - unfold scalar_column in Hc.
    destruct (vertex_properties tg !! k) as [[a|a|a]|] eqn:Hp; try discriminate;
      injection Hc as <-; pose proof (Hwf k _ Hp) as Hlen; simpl in Hlen;
      (split; [exact Hlen|]); eauto.
Qed.

Lemma export_csv_only_one_vertex :
  column_length (LongColumn [1]) = num_vertices one_vertex_measured
  /\ ((exists v a,
          vertex_properties one_vertex_measured !! v = Some (PVector a)
          /\ (("self_id_min" = v +:+ "_x" /\ LongColumn [1] = FloatColumn (map vx a))
              \/ ("self_id_min" = v +:+ "_y" /\ LongColumn [1] = FloatColumn (map vy a))
              \/ ("self_id_min" = v +:+ "_z" /\ LongColumn [1] = FloatColumn (map vz a))))
      \/ (exists a, vertex_properties one_vertex_measured !! "self_id_min"
                    = Some (PFloat a)
                    /\ LongColumn [1] = FloatColumn a)
      \/ (exists a, vertex_properties one_vertex_measured !! "self_id_min"
                    = Some (PLong a)
                    /\ LongColumn [1] = LongColumn a)).
Proof.
  apply (export_csv_only one_vertex_measured one_vertex_frame "self_id_min"
           (LongColumn [1])).
  - exact one_vertex_measured_well_formed.
  - vm_compute. lia.
  - vm_compute. reflexivity.
  - vm_compute. reflexivity.
Defined.

(** ** Verticality in float64 *)

Section Verticality64Facts.

Lemma mul_finite_not_nan (x : float) (s : bool) (m : positive) (e : Z) :
  isnan x = false -> isnan (mul x (S754_finite s m e)) = false.
Proof.
  destruct x as [sx|sx| |sx mx ex]; simpl; intros Hx; try discriminate;
    try reflexivity.
  apply (has_sign_not_nan (xorb sx s)), binary_round_aux_sign. lia.
Qed.

Lemma div_finite_not_nan (x : float) (s : bool) (m : positive) (e : Z) :
  isnan x = false -> isnan (div x (S754_finite s m e)) = false.
Proof.
  destruct x as [sx|sx| |sx mx ex]; simpl; intros Hx; try discriminate;
    try reflexivity.
  unfold div; simpl.
  destruct (SFdiv_core_binary prec emax (Z.pos mx) ex (Z.pos m) e)
    as [[mz ez] lz] eqn:E.
  apply (has_sign_not_nan (xorb sx s)), binary_round_aux_sign.
  unfold SFdiv_core_binary in E.
  set (e' := Z.min _ _) in E. set (m' := match _ with 0 => _ | _ => _ end) in E.
  assert (H0 : 0 <= m').
  { subst m'. destruct (ex - e - e') as [|q|q]; try lia.
    apply Z.shiftl_nonneg. lia. }
  assert (Hq : fst (Z.div_eucl m' (Z.pos m)) = m' / Z.pos m)
    by (unfold Z.div; destruct (Z.div_eucl m' (Z.pos m)); reflexivity).
  destruct (Z.div_eucl m' (Z.pos m)) as [q r]. injection E as <- _ _.
  simpl in Hq. rewrite Hq. apply Z.div_pos; lia.
Qed.

Lemma sub_finite_r_not_nan (x y : float) :
  isnan x = false -> isfinite y = true -> isnan (sub x y) = false.
Proof.
  destruct x as [sx|sx| |sx mx ex], y as [sy|sy| |sy my ey];
    simpl; intros Hx Hy; try discriminate; try reflexivity.
  - destruct sx, sy; reflexivity.
  - apply binary_normalize_not_nan.
Qed.

Lemma sub_finite_l_not_nan (x y : float) :
  isfinite x = true -> isnan y = false -> isnan (sub x y) = false.
Proof.
  destruct x as [sx|sx| |sx mx ex], y as [sy|sy| |sy my ey];
    simpl; intros Hx Hy; try discriminate; try reflexivity.
  - destruct sx, sy; reflexivity.
  - apply binary_normalize_not_nan.
Qed.

Lemma isnan_SFabs (x : float) : isnan (SFabs x) = isnan x.
Proof. destruct x; reflexivity. Qed.

(** X8. The float64 verticality of a normal is NaN exactly when
    [np.arccos] of its z component is: the arithmetic of line 111 neither
    makes a NaN out of a number nor hides one. *)
Theorem verticality_nan (arccos : float -> float) (z : float) :
  isnan (vert_float64 arccos z) = isnan (arccos z).
Proof.
  unfold vert_float64.
  assert (E180 : of_int 180 = S754_finite false 6333186975989760 (-45))
    by (vm_compute; reflexivity).
  assert (E90 : isfinite (of_int 90) = true) by (vm_compute; reflexivity).
  destruct (isnan (arccos z)) eqn:N.
  - rewrite (isnan_true _ N). vm_compute. reflexivity.
  - apply sub_finite_l_not_nan; [exact E90|]. rewrite isnan_SFabs.
    apply sub_finite_r_not_nan; [|exact E90].
    apply div_finite_not_nan. rewrite E180. apply mul_finite_not_nan, N.
Qed.

End Verticality64Facts.

(** ** The two passes on one graph *)

Lemma set_array_Ok (n : nat) (v a : list float) :
  set_array n v = Ok a -> length a = n.
Proof.
  unfold set_array. destruct (Nat.eqb_spec (length v) n) as [E|E].
  - intros H. injection H as <-. exact E.
  - destruct v as [|x [|y v]]; try discriminate.
    intros H. injection H as <-. apply length_replicate.
Qed.

(** What the verticality pass does to a graph. *)
Lemma surface_verticality_Ok (arccos : float -> float) (g gv : Graph) :
  surface_verticality arccos g = Ok gv ->
  exists a, gv = set_property "verticality" (PFloat a) g
            /\ length a = num_vertices g.
Proof.
  unfold surface_verticality.
  destruct (get_vectors g "n_v") as [n_v|e]; simpl; [|discriminate].
  destruct (set_array _ _) as [a|e] eqn:E; simpl; [|discriminate].
  intros H. injection H as <-. exists a. split; [reflexivity|].
  apply (set_array_Ok _ _ _ E).
Qed.


Lemma well_formed_set_property (g : Graph) (name : string) (p : property_map) :
  well_formed g -> property_length p = num_vertices g ->
  well_formed (set_property name p g).
Proof.
  intros Hwf Hp. unfold well_formed, set_property. simpl.
  apply map_Forall_insert_2; assumption.
Qed.

Lemma well_formed_write_distances (g : Graph) (s : arrays) :
  well_formed g -> has_length (num_vertices g) s ->
  well_formed (write_distances s g).
Proof.
  destruct s as [[[cd ci] fd] fi]. intros Hwf (L1 & L2 & L3 & L4).
  unfold write_distances.
  repeat apply well_formed_set_property; auto.
Qed.


(** A run of the distance pass on a well-formed graph keeps it so. *)
Lemma surface_self_distances_well_formed (g g1 : Graph) (locator : Locator)
    (dist_min dist_max : Z) (tolerance : float) :
  well_formed g ->
  surface_self_distances g locator dist_min dist_max tolerance = Ok g1 ->
  well_formed g1 /\ num_vertices g1 = num_vertices g
  /\ num_vertices g <> 0%nat
  /\ exists s, self_distances g1 = Some s /\ g1 = write_distances s g.
Proof.
  intros Hwf E.
  destruct (surface_self_distances_Ok _ _ _ _ _ _ E)
    as (xyz & normal & s & _ & _ & El & Hv & ->).
  assert (L : has_length (num_vertices g) s).
  { eapply (for_each_distances_at _ _ _ _ _ (num_vertices g) (num_vertices g) 0%nat);
      [|reflexivity|exact El].
    unfold new_float_array, new_long_array. simpl.
    rewrite !length_replicate. auto. }
  split; [apply well_formed_write_distances; assumption|].
  split; [apply num_vertices_write_distances|split; [exact Hv|]].
  exists s. split; [apply self_distances_write_distances|reflexivity].
Qed.

(** X9. The distance pass does not see the verticality pass: on the
    graph that the verticality pass leaves, which is the graph with one
    more property, it returns what it returns on the graph itself with
    that same property added, so the four arrays are the same. *)
Theorem verticality_then_distances (arccos : float -> float) (g gv g1 : Graph)
    (locator : Locator) (dist_min dist_max : Z) (tolerance : float) :
  surface_verticality arccos g = Ok gv ->
  surface_self_distances g locator dist_min dist_max tolerance = Ok g1 ->
  exists a,
    gv = set_property "verticality" (PFloat a) g
    /\ surface_self_distances gv locator dist_min dist_max tolerance
       = Ok (set_property "verticality" (PFloat a) g1)
    /\ self_distances (set_property "verticality" (PFloat a) g1)
       = self_distances g1.
Proof.
  intros Ev E.
  destruct (surface_verticality_Ok _ _ _ Ev) as (a & -> & La).
  destruct (surface_self_distances_Ok _ _ _ _ _ _ E)
    as (xyz & normal & s & Hx & Hn & El & Hv & ->).
  assert (Hw : write_distances s (set_property "verticality" (PFloat a) g)
               = set_property "verticality" (PFloat a) (write_distances s g)).
  { destruct s as [[[cd ci] fd] fi].
    unfold write_distances, set_property. simpl. f_equal.
    rewrite (insert_insert_ne _ "verticality" "self_id_far") by discriminate.
    rewrite (insert_insert_ne _ "verticality" "self_dist_far") by discriminate.
    rewrite (insert_insert_ne _ "verticality" "self_id_min") by discriminate.
    rewrite (insert_insert_ne _ "verticality" "self_dist_min") by discriminate.
    reflexivity. }
  exists a. split; [reflexivity|split].
  - rewrite <- Hw. apply (surface_self_distances_eq _ _ _ _ _ xyz normal).
    + unfold get_vectors in *. simpl.
      rewrite lookup_insert_ne by discriminate. exact Hx.
    + unfold get_vectors in *. simpl.
      rewrite lookup_insert_ne by discriminate. exact Hn.
    + exact El.
    + exact Hv.
  - rewrite <- Hw, !self_distances_write_distances. reflexivity.
Qed.

Lemma verticality_then_distances_one_vertex :
  exists a,
    set_property "verticality" (PFloat [f0]) one_vertex
    = set_property "verticality" (PFloat a) one_vertex
    /\ surface_self_distances
         (set_property "verticality" (PFloat [f0]) one_vertex)
         two_sheets 1 50 tol_0_1
       = Ok (set_property "verticality" (PFloat a) one_vertex_measured)
    /\ self_distances (set_property "verticality" (PFloat a) one_vertex_measured)
       = self_distances one_vertex_measured.
Proof.
  apply (verticality_then_distances arccos_at_one one_vertex
           (set_property "verticality" (PFloat [f0]) one_vertex)
           one_vertex_measured two_sheets 1 50 tol_0_1);
    vm_compute; reflexivity.
Defined.

Lemma substring_all (t : string) : substring 0 (String.length t) t = t.
Proof. induction t as [|c t IH]; simpl; [reflexivity|f_equal; exact IH]. Qed.

Lemma substring_suffix (v t : string) :
  substring (String.length v) (String.length t) (v +:+ t) = t.
Proof. induction v as [|c v IH]; simpl; [apply substring_all|exact IH]. Qed.

(** X10. The frame exported after a distance pass has the four columns
    "self_dist_min", "self_id_min", "self_dist_far" and "self_id_far",
    and they hold the four arrays of the pass: no property of the graph,
    whatever its name, takes their place. *)
Theorem exported_distances (g g1 : Graph) (locator : Locator)
    (dist_min dist_max : Z) (tolerance : float) :
  well_formed g ->
  surface_self_distances g locator dist_min dist_max tolerance = Ok g1 ->
  exists df close_distances close_id far_distances far_id,
    export_csv g1 = Ok df
    /\ self_distances g1
       = Some (close_distances, close_id, far_distances, far_id)
    /\ df !! "self_dist_min" = Some (FloatColumn close_distances)
    /\ df !! "self_id_min" = Some (LongColumn close_id)
    /\ df !! "self_dist_far" = Some (FloatColumn far_distances)
    /\ df !! "self_id_far" = Some (LongColumn far_id).
Proof.
  intros Hwf E.
  destruct (surface_self_distances_well_formed _ _ _ _ _ _ Hwf E)
    as (Hwf1 & Hn1 & Hn & [[[cd ci] fd] fi] & Hs & ->).
  destruct (export_csv_lookup _ Hwf1 ltac:(congruence)) as (df & Ed & Hk).
  exists df, cd, ci, fd, fi.
  split; [exact Ed|split; [exact Hs|]].
  assert (Hc : forall k, k = "self_dist_min" \/ k = "self_id_min"
                         \/ k = "self_dist_far" \/ k = "self_id_far" ->
                 component_column (write_distances (cd, ci, fd, fi) g) k = None).
  { intros k Hkk.
    destruct (component_column _ k) as [c|] eqn:Ec; [|reflexivity].
    exfalso. destruct (component_column_Some _ k c Ec) as (v & a & _ & Hkc).
    assert (Hl : exists t, k = v +:+ t /\ (t = "_x" \/ t = "_y" \/ t = "_z"))
      by (destruct Hkc as [[-> _]|[[-> _]|[-> _]]]; eauto).
    destruct Hl as (t & Hkv & Ht).
    assert (Hlast : substring (String.length k - 2) 2 k = t).
    { assert (H2 : String.length t = 2%nat)
        by (destruct Ht as [->|[->| ->]]; reflexivity).
      rewrite Hkv, length_app_string, H2.
      replace (String.length v + 2 - 2)%nat with (String.length v) by lia.
      rewrite <- H2. apply substring_suffix. }
    destruct Hkk as [->|[->|[->| ->]]]; vm_compute in Hlast;
      destruct Ht as [->|[->| ->]]; discriminate. }
  rewrite !Hk, !Hc by auto.
  unfold scalar_column. simpl.
  repeat split.
  - rewrite !lookup_insert_ne by discriminate. rewrite lookup_insert_eq.
    reflexivity.
  - rewrite !lookup_insert_ne by discriminate. rewrite lookup_insert_eq.
    reflexivity.
  - rewrite !lookup_insert_ne by discriminate. rewrite lookup_insert_eq.
    reflexivity.
  - rewrite lookup_insert_eq. reflexivity.
Qed.

Lemma one_vertex_well_formed : well_formed one_vertex.
Proof. apply map_Forall_to_list. vm_compute. repeat constructor. Qed.

Lemma exported_distances_one_vertex :
  exists df close_distances close_id far_distances far_id,
    export_csv one_vertex_measured = Ok df
    /\ self_distances one_vertex_measured
       = Some (close_distances, close_id, far_distances, far_id)
    /\ df !! "self_dist_min" = Some (FloatColumn close_distances)
    /\ df !! "self_id_min" = Some (LongColumn close_id)
    /\ df !! "self_dist_far" = Some (FloatColumn far_distances)
    /\ df !! "self_id_far" = Some (LongColumn far_id).
Proof.
  apply (exported_distances one_vertex one_vertex_measured two_sheets 1 50 tol_0_1).
  - exact one_vertex_well_formed.
  - vm_compute. reflexivity.
Defined.

(** ** The files of a run *)

Lemma gt_vtp_csv (stem : string) :
  surface_file (stem +:+ ".gt") = stem +:+ ".vtp"
  /\ csvname (stem +:+ ".gt") = stem +:+ ".csv"
  /\ stem +:+ ".vtp" <> stem +:+ ".gt"
  /\ stem +:+ ".csv" <> stem +:+ ".gt"
  /\ stem +:+ ".csv" <> stem +:+ ".vtp".
Proof.
  unfold surface_file, csvname.
  pose proof (drop_last_suffix stem ".gt") as H3.
  change (String.length ".gt") with 3%nat in H3. rewrite H3.
  repeat split; try reflexivity; intros E; apply app_string_inj in E;
    discriminate.
Qed.

Section FilesFacts.

Variable Poly : Type.
Variable locator_of : Poly -> Locator.
Variable graph_to_triangle_poly : Graph -> Poly.
Variable arccos : float -> float.

Let intra_cli := Files.intra_cli Poly locator_of graph_to_triangle_poly arccos.



(** X12. When the computation of the distance pass raises, the pass
    leaves the disk as it found it.  Yet a run of [intra_cli] with the
    verticality pass on has by then replaced the graph file by the graph
    with its verticality, and leaves it so: the surface file and the CSV
    are as they were. *)
Theorem failed_distance_pass (stem : string)
    (d : gmap string (Files.file Poly)) (g gv : Graph) (p : Poly)
    (dist_min dist_max : Z) (tolerance : float) (exportcsv : bool)
    (e e' : exn) :
  d !! (stem +:+ ".gt") = Some (Files.GraphFile g) ->
  d !! (stem +:+ ".vtp") = Some (Files.PolyFile p) ->
  surface_self_distances g (locator_of p) dist_min dist_max tolerance
    = Raise e ->
  surface_verticality arccos g = Ok gv ->
  surface_self_distances gv (locator_of p) dist_min dist_max tolerance
    = Raise e' ->
  intra_cli (stem +:+ ".gt") false dist_min dist_max tolerance exportcsv d
    = (d, Files.Raised e)
  /\ intra_cli (stem +:+ ".gt") true dist_min dist_max tolerance exportcsv d
     = (<[stem +:+ ".gt" := Files.GraphFile gv]> d, Files.Raised e').
Proof.
  intros Hg Hp E Ev E'.
  destruct (gt_vtp_csv stem) as (Esf & Ecsv & N1 & N2 & N3).
  unfold intra_cli, Files.intra_cli. rewrite Esf.
  unfold Files.surface_verticality, Files.surface_self_distances,
    Files.io_bind, Files.load_poly, Files.load_graph, Files.lift, Files.save,
    Files.ret.
  split.
  - rewrite Hp, Hg, E. reflexivity.
  - rewrite Hg, Ev.
    rewrite lookup_insert_ne by exact (not_eq_sym N1).
    rewrite Hp, lookup_insert_eq, E'. reflexivity.
Qed.

End FilesFacts.


Lemma failed_distance_pass_bad_disk :
  Files.intra_cli Locator (fun l => l) (fun _ => two_sheets) arccos_at_one
    ("mesh" +:+ ".gt") false 1 50 tol_0_1 true bad_disk
  = (bad_disk, Files.Raised (AttributeError "xyz"))
  /\ Files.intra_cli Locator (fun l => l) (fun _ => two_sheets) arccos_at_one
       ("mesh" +:+ ".gt") true 1 50 tol_0_1 true bad_disk
     = (<["mesh" +:+ ".gt" :=
            Files.GraphFile (set_property "verticality" (PFloat [f0]) no_positions)]>
          bad_disk,
        Files.Raised (AttributeError "xyz")).
Proof.
  apply (failed_distance_pass Locator (fun l => l) (fun _ => two_sheets)
           arccos_at_one "mesh" bad_disk no_positions
           (set_property "verticality" (PFloat [f0]) no_positions)
           two_sheets 1 50 tol_0_1 true).
  - apply lookup_insert_eq.
  - unfold bad_disk. rewrite lookup_insert_ne by discriminate.
    apply lookup_insert_eq.
  - vm_compute. reflexivity.
  - vm_compute. reflexivity.
  - vm_compute. reflexivity.
Defined.

(** ** The names of the files, whatever the path *)

Lemma drop_last_short (n : nat) (s : string) :
  (String.length s <= n)%nat -> drop_last n s = "".
Proof.
  intros H. unfold drop_last.
  replace (String.length s - n)%nat with 0%nat by lia.
  destruct s; reflexivity.
Qed.

(** X13. The names of the surface file and of the CSV are made from the
    path of the graph without its last three characters, whatever these
    are: the ending ".gt" is not looked at.  A path that ends in three
    characters [ext] after [stem] gives [stem.vtp] and [stem.csv]; a path
    of three characters or fewer gives ".vtp" and ".csv". *)
Theorem derived_names (path stem ext : string) :
  path = stem +:+ ext ->
  String.length ext = 3%nat \/ (stem = "" /\ (String.length ext <= 3)%nat) ->
  surface_file path = stem +:+ ".vtp" /\ csvname path = stem +:+ ".csv".
Proof.
  intros -> [H3|[-> Hs]]; unfold surface_file, csvname.
  - rewrite <- H3, drop_last_suffix. auto.
  - rewrite drop_last_short by exact Hs. auto.
Qed.

Lemma derived_names_graphml :
  surface_file "mesh.graphml" = "mesh.grap" +:+ ".vtp"
  /\ csvname "mesh.graphml" = "mesh.grap" +:+ ".csv".
Proof.
  apply (derived_names "mesh.graphml" "mesh.grap" "hml").
  - reflexivity.
  - left. reflexivity.
Defined.

(** ** The verticality pass twice *)

(** X15. The verticality pass run on the graph it has left returns that
    same graph: it reads the normals only, which it does not change. *)
Theorem surface_verticality_twice (arccos : float -> float) (g gv : Graph) :
  surface_verticality arccos g = Ok gv ->
  surface_verticality arccos gv = Ok gv.
Proof.
  intros E. pose proof E as E0. revert E.
  unfold surface_verticality.
  destruct (get_vectors g "n_v") as [n_v|e] eqn:Hn; simpl; [|discriminate].
  destruct (set_array _ _) as [a|e] eqn:Ea; simpl; [|discriminate].
  intros H. injection H as <-.
  assert (Hn' : get_vectors (set_property "verticality" (PFloat a) g) "n_v"
                = Ok n_v).
  { unfold get_vectors in *. simpl.
    rewrite lookup_insert_ne by discriminate. exact Hn. }
  rewrite Hn'. simpl. rewrite Ea. simpl.
  unfold set_property. simpl. rewrite insert_insert_eq. reflexivity.
Qed.

Lemma surface_verticality_twice_one_vertex :
  surface_verticality arccos_at_one
    (set_property "verticality" (PFloat [f0]) one_vertex)
  = Ok (set_property "verticality" (PFloat [f0]) one_vertex).
Proof.
  apply (surface_verticality_twice arccos_at_one one_vertex).
  vm_compute. reflexivity.
Defined.
